(** * eqo-beta: the ingestion and reconciliation core, embedded in Rocq

    A shallow embedding of the parts of the repository that decode the
    station telemetry (src/pages/api/kma.ts, the PEWS stations handler),
    scrape the KMA table (same file, first handler), keep the recent-event
    store and the regional-feed lock and backoff (the WebSocket provider in
    src/components/WaveOverlay.tsx) and resolve the tsunami level shown in
    the side bar (the Home page, src/unnamed/part_004).

    Conventions.
    - JavaScript numbers that hold integers are [Z] (or [nat] for loop
      counters and offsets that only count up from 0); the 32-bit bitwise
      operators are written with their wrap-around ([toInt32]).
    - JavaScript numbers that hold decimal fractions are exact rationals
      [Q]; every comparison the code makes on them is between values at
      least 1/100 apart or exactly representable, so the rational reading
      agrees with the double-precision one.
    - A rejected promise or a thrown exception is [None]. *)

From Stdlib Require Import ZArith QArith Qround String Ascii List Bool Lia.
From Stdlib Require Import DecimalString Strings.Byte Permutation Sorted.
Import ListNotations.

Local Open Scope string_scope.
Local Open Scope Z_scope.

(* ================================================================== *)
(** ** JavaScript's 32-bit integer operators *)

Module JS.

(** ToInt32: reduction modulo 2^32 into [-2^31, 2^31). *)
Definition toInt32 (z : Z) : Z := (z + 2 ^ 31) mod 2 ^ 32 - 2 ^ 31.

(** [a << k], [a >> k], [a & b], [a | b] for 0 <= k < 32. *)
Definition shl (a k : Z) : Z := toInt32 (Z.shiftl (toInt32 a) k).
Definition shr (a k : Z) : Z := Z.shiftr (toInt32 a) k.
Definition and (a b : Z) : Z := Z.land (toInt32 a) (toInt32 b).
Definition or (a b : Z) : Z := Z.lor (toInt32 a) (toInt32 b).

End JS.


(* ================================================================== *)
(** ** JavaScript's local time *)

Module JSDate.

Definition msPerDay : Z := 86400000.

(** The time zone of the runtime, a time value being milliseconds since
    the epoch:
    - [offsetAt t] is the offset of local time from UTC at the instant [t]
      (LocalTZA(t, true));
    - [offsetOfLocal l] is the offset by which the runtime reads the local
      time value [l] (LocalTZA(l, false)); for a local time that a change
      of offset skips or repeats the runtime takes the offset before the
      change. *)
Record TimeZone := mkZone {
  offsetAt : Z -> Z;
  offsetOfLocal : Z -> Z
}.

Definition LocalTime (tz : TimeZone) (t : Z) : Z := t + offsetAt tz t.
Definition UTC (tz : TimeZone) (l : Z) : Z := l - offsetOfLocal tz l.
Definition Day (t : Z) : Z := t / msPerDay.
Definition TimeWithinDay (t : Z) : Z := t mod msPerDay.
Definition MakeDate (day time : Z) : Z := day * msPerDay + time.

(** [d.setDate(d.getDate() - n)]: the same local time of day, [n] calendar
    days earlier. *)
Definition setDateBack (tz : TimeZone) (n : Z) (d : Z) : Z :=
  let t := LocalTime tz d in
  UTC tz (MakeDate (Day t - n) (TimeWithinDay t)).

(** [d.setHours(0, 0, 0, 0)]: local midnight of the same local day. *)
Definition setHoursZero (tz : TimeZone) (d : Z) : Z :=
  let t := LocalTime tz d in
  UTC tz (MakeDate (Day t) 0).

(** [d.setDate(d.getDate() - n); d.setHours(0, 0, 0, 0)] *)
Definition localMidnightBack (tz : TimeZone) (n : Z) (now : Z) : Z :=
  setHoursZero tz (setDateBack tz n now).

(** A zone whose offset never changes. *)
Definition constantZone (offset : Z) : TimeZone :=
  mkZone (fun _ => offset) (fun _ => offset).

Definition utc : TimeZone := constantZone 0.

(** A zone five hours behind UTC that goes to four hours behind at 02:00
    local time of 9 March 2025 (07:00 UTC), the local times from 02:00 to
    03:00 of that day being skipped. *)
Definition springForward2025 : TimeZone :=
  mkZone (fun t => if t <? 1741503600000 then -18000000 else -14400000)
         (fun l => if l <? 1741489200000 then -18000000 else -14400000).

End JSDate.
(* ================================================================== *)
(** ** The station telemetry decoder (src/pages/api/kma.ts, stations API) *)

Module Telemetry.

(** A Node [Buffer]: its bytes. *)
Definition Buffer := list byte.

Definition byteZ (b : byte) : Z := Z.of_N (Byte.to_N b).

(** [buffer[byteIndex]] as the bitwise operators see it: an index past the
    end reads [undefined], which [>>] converts to 0. *)
Definition byteAt (buffer : Buffer) (byteIndex : nat) : Z :=
  match nth_error buffer byteIndex with
  | Some b => byteZ b
  | None => 0
  end.

(** class BitReader *)
Record BitReader := mkBitReader { buffer : Buffer; bitOffset : nat }.

Definition newBitReader (buf : Buffer) : BitReader := mkBitReader buf 0.

(** The body of [readBits]'s loop, [numBits] iterations left. *)
Fixpoint readBits_loop (buf : Buffer) (numBits : nat) (value : Z) (off : nat)
  : Z * nat :=
  match numBits with
  | O => (value, off)
  | S rest =>
      let byteIndex := (off / 8)%nat in
      let bitInByteIndex := 7 - Z.of_nat (off mod 8) in
      let bit := JS.and (JS.shr (byteAt buf byteIndex) bitInByteIndex) 1 in
      readBits_loop buf rest (JS.or (JS.shl value 1) bit) (S off)
  end.

Definition readBits (numBits : nat) (r : BitReader) : Z * BitReader :=
  let '(value, off) := readBits_loop (buffer r) numBits 0 (bitOffset r) in
  (value, mkBitReader (buffer r) off).

(** [for (i = 0; i < n; i++) out.push(reader.readBits(width))] *)
Fixpoint readFields (n width : nat) (r : BitReader) : list Z :=
  match n with
  | O => []
  | S rest =>
      let '(v, r') := readBits width r in
      v :: readFields rest width r'
  end.

(** [fetchMMIData]: [response] is the body of the [.b] file, [None] when
    the request fails (the function rethrows). *)
Definition fetchMMIData (response : option Buffer) : option (list Z) :=
  match response with
  | None => None
  | Some buf =>
      let reader := newBitReader buf in
      let '(_, reader) := readBits 32 reader in
      let totalStations := (Z.of_nat (length buf) * 8 - 32) / 4 in
      Some (readFields (Z.to_nat totalStations) 4 reader)
  end.

Record Station := mkStation {
  id : Z;
  latitude : Q;
  longitude : Q;
  name : string;
  mmi : Z
}.

(** [parseFloat(x.toFixed(6))]: [x] rounded to six decimals, ties up. *)
Definition toFixed6 (x : Q) : Q :=
  (inject_Z (Qfloor (x * 1000000 + (1 # 2))) / 1000000)%Q.

(** The Ulleungdo test of the loop body. *)
Definition inUlleungdoBox (lat lon : Q) : bool :=
  Qle_bool 37 lat && Qle_bool lat 38 && Qle_bool 120 lon && Qle_bool lon 121.

Definition stationName (i : nat) : string :=
  ("STN-" ++ NilZero.string_of_uint (Nat.to_uint (i + 1)))%string.

(** One iteration of the station loop after the two [readBits] calls. *)
Definition decodeStation (mmiData : option (list Z)) (i : nat)
  (latBits lonBits : Z) : Station :=
  let lat := (30 + inject_Z latBits / 100)%Q in
  let lon := (120 + inject_Z lonBits / 100)%Q in
  let lon := if inUlleungdoBox lat lon then (lon + 10)%Q else lon in
  let mmi :=
    match mmiData with
    | Some tbl => if (i <? length tbl)%nat then nth i tbl 0 else 0
    | None => 0
    end in
  mkStation (Z.of_nat i + 1) (toFixed6 lat) (toFixed6 lon) (stationName i) mmi.

(** The station loop: [n] iterations left, [i] the loop counter. *)
Fixpoint stationLoop (mmiData : option (list Z)) (n i : nat) (r : BitReader)
  : list Station :=
  match n with
  | O => []
  | S rest =>
      let '(latBits, r1) := readBits 10 r in
      let '(lonBits, r2) := readBits 10 r1 in
      decodeStation mmiData i latBits lonBits :: stationLoop mmiData rest (S i) r2
  end.

(** [fetchStations]: [stationResponse] is the body of the [.s] file and
    [mmiResponse] that of the [.b] file, [None] for a failed request.
    [Promise.all] rejects when the station request does; the MMI promise
    never rejects, its [catch] turns a failure into [null]. *)
Definition fetchStations (stationResponse mmiResponse : option Buffer)
  : option (list Station) :=
  let mmiData := fetchMMIData mmiResponse in
  match stationResponse with
  | None => None
  | Some buf =>
      let reader := newBitReader buf in
      let totalStations := (Z.of_nat (length buf) * 8) / 20 in
      Some (stationLoop mmiData (Z.to_nat totalStations) 0 reader)
  end.

(** *** The bit stream, as the wire format describes it *)

(** The eight bits of a byte, most significant first. *)
Definition byteBits (b : byte) : list bool :=
  map (fun j => Z.testbit (byteZ b) (7 - Z.of_nat j)) (seq 0 8).

(** The buffer as one stream of bits: byte 0 first, each byte from its
    most significant bit. *)
Definition bitstream (buf : Buffer) : list bool := flat_map byteBits buf.

(** The unsigned value of a bit string read most-significant-bit-first. *)
Definition beStep (v : Z) (b : bool) : Z := 2 * v + Z.b2z b.
Definition beValue (bits : list bool) : Z := fold_left beStep bits 0.

(** The [width]-bit unsigned field that starts at bit [off] of the stream. *)
Definition field (buf : Buffer) (off width : nat) : Z :=
  beValue (firstn width (skipn off (bitstream buf))).

(** The bit the reader extracts at offset [k]. *)
Definition bitAt (buf : Buffer) (k : nat) : bool :=
  Z.testbit (byteAt buf (k / 8)) (7 - Z.of_nat (k mod 8)).

(** What [readBits] computes from offset [off] on, starting from [v]. *)
Definition readValue (buf : Buffer) (off n : nat) (v : Z) : Z :=
  fold_left beStep (map (bitAt buf) (seq off n)) v.

(** The number of iterations of the station loop. *)
Definition stationCount (buf : Buffer) : nat := (8 * length buf / 20)%nat.

End Telemetry.

(* ================================================================== *)
(** ** P2PQuake messages (the types of types/p2pquake the provider uses) *)

Module P2PQuake.

(** A message's [time] field is a string; the provider only ever looks at
    the instant [new Date(time)] denotes, in milliseconds since the epoch.
    [None] is an Invalid Date. *)
Definition Instant := option Z.

Record Hypocenter := mkHypocenter {
  hypo_name : string;
  hypo_latitude : Q;
  hypo_longitude : Q;
  hypo_depth : Z;
  hypo_magnitude : Q
}.

Record Earthquake := mkEarthquake {
  maxScale : Z;
  domesticTsunami : string;
  hypocenter : Hypocenter
}.

Record Point := mkPoint {
  addr : string;
  pref : string;
  scale : Z
}.

(** Code 551. [syntheticFromTsunami] is the flag the provider sets on the
    records it makes up itself; it is absent (false) on received ones. *)
Record EarthquakeData := mkEarthquakeData {
  eq_code : Z;
  eq_time : Instant;
  earthquake : Earthquake;
  freeFormComment : string;
  points : list Point;
  syntheticFromTsunami : bool
}.

(** Code 556. *)
Record EEWData := mkEEWData {
  eew_code : Z;
  eew_time : Instant;
  eew_eventId : string
}.

(** An area of a tsunami message; a missing [name] is the empty string. *)
Record TsunamiArea := mkTsunamiArea {
  area_name : string;
  grade : string
}.

(** Code 552. *)
Record TsunamiData := mkTsunamiData {
  tsu_code : Z;
  tsu_time : Instant;
  cancelled : bool;
  areas : list TsunamiArea
}.

(** A decoded message, discriminated by its [code] field. [NotAMessage] is
    a value that is not an object or has no numeric [code]. *)
Inductive P2PQuakeData :=
| Code551 (d : EarthquakeData)
| Code556 (d : EEWData)
| Code552 (d : TsunamiData)
| OtherCode (code : Z)
| NotAMessage.

End P2PQuake.

(* ================================================================== *)
(** ** The recent-event store (WebSocketProvider, src/components/WaveOverlay.tsx) *)

Module Provider.
Import P2PQuake.

(** The provider's three pieces of React state. *)
Record Store := mkStore {
  earthquakeData : list EarthquakeData;
  eewData : option EEWData;
  tsunamiData : option TsunamiData
}.

Definition initialStore : Store := mkStore [] None None.

Definition dayMs : Z := 86400000.

(** [d = new Date(); d.setDate(d.getDate() - 2); d.setHours(0, 0, 0, 0)]:
    local midnight of the calendar day two days before that of [now], in
    the time zone [tz] of the runtime. *)
Definition twoDaysAgo (tz : JSDate.TimeZone) (now : Z) : Z :=
  JSDate.localMidnightBack tz 2 now.

(** [new Date(item.time) >= cutoff]; false for an Invalid Date. *)
Definition notBefore (cutoff : Z) (item : EarthquakeData) : bool :=
  match eq_time item with
  | Some t => cutoff <=? t
  | None => false
  end.

(** [prev => [d, ...prev.filter(inWindow)].slice(0, 50)] *)
Definition insertCapped (cutoff : Z) (d : EarthquakeData)
  (prev : list EarthquakeData) : list EarthquakeData :=
  firstn 50 (d :: filter (notBefore cutoff) prev).

Definition hasGrade (g : string) (l : list TsunamiArea) : bool :=
  existsb (fun a => String.eqb (grade a) g) l.

(** The placeholder 551 record made for a tsunami message. *)
Definition syntheticQuake (now : Z) (tsu : TsunamiData) : EarthquakeData :=
  let firstName :=
    match areas tsu with
    | a :: _ => if String.eqb (area_name a) "" then "沿岸海域" else area_name a
    | [] => "沿岸海域"
    end in
  let hasWarning := hasGrade "Warning" (areas tsu) in
  let hasWatch := hasGrade "Watch" (areas tsu) in
  let domesticTsunami :=
    if hasWarning then "Warning" else if hasWatch then "Watch" else "None" in
  mkEarthquakeData 551 (Some now)
    (mkEarthquake 0 domesticTsunami
       (mkHypocenter firstName 35 139 10 3))
    "津波情報に基づくテスト用の仮想地震です。"
    [] true.

(** [handleOne] inside [ingestP2pquakePayload], at clock reading [now]. *)
Definition handleOne (tz : JSDate.TimeZone) (now : Z) (s : Store) (d : P2PQuakeData) : Store :=
  match d with
  | Code551 q =>
      mkStore (insertCapped (twoDaysAgo tz now) q (earthquakeData s))
              (eewData s) (tsunamiData s)
  | Code556 e => mkStore (earthquakeData s) (Some e) (tsunamiData s)
  | Code552 tsu =>
      let quakes :=
        if cancelled tsu then earthquakeData s
        else insertCapped (twoDaysAgo tz now) (syntheticQuake now tsu)
               (earthquakeData s) in
      mkStore quakes (eewData s) (Some tsu)
  | OtherCode _ => s
  | NotAMessage => s
  end.

(** The JSON a poll of the test file returns: one message or an array. *)
Inductive Payload :=
| Single (d : P2PQuakeData)
| Many (ds : list P2PQuakeData).

Definition ingestP2pquakePayload (tz : JSDate.TimeZone) (now : Z) (s : Store) (payload : Payload)
  : Store :=
  match payload with
  | Many ds => fold_left (handleOne tz now) ds s
  | Single d => handleOne tz now s d
  end.

(** [ws.current.onmessage] of [connectWebSocket]; [None] is a frame that
    does not parse as JSON. (The handler also records the newest time under
    the [lastPlayedSoundTime] storage key, which nothing here reads.) *)
Definition onmessage (tz : JSDate.TimeZone) (now : Z) (s : Store) (event : option P2PQuakeData)
  : Store :=
  match event with
  | Some (Code551 q) =>
      let filteredPrevData :=
        filter (notBefore (twoDaysAgo tz now)) (earthquakeData s) in
      mkStore (q :: filteredPrevData) (eewData s) (tsunamiData s)
  | Some (Code556 e) => mkStore (earthquakeData s) (Some e) (tsunamiData s)
  | Some (Code552 tsu) => mkStore (earthquakeData s) (eewData s) (Some tsu)
  | Some (OtherCode _) => s
  | Some NotAMessage => s
  | None => s
  end.

(** The two fixed texts of [syntheticQuake], named. *)
Definition defaultAreaName : string := "沿岸海域".
Definition syntheticComment : string :=
  "津波情報に基づくテスト用の仮想地震です。".

(** *** The cross-tab lock of the regional feeds *)

Record LockRecord := mkLock { lock_id : string; lock_ts : Z }.

(** [localStorage] as the lock code sees it: the parsed value under the
    key [wolfx_lock], or a store whose access throws. *)
Inductive LocalStorage :=
| StorageThrows
| Storage (wolfx_lock : option LockRecord).

(** [wolfxLockIdRef.current || fresh]: null and the empty string are falsy. *)
Definition lockIdOr (idRef : option string) (fresh : string) : string :=
  match idRef with
  | Some s => if String.eqb s "" then fresh else s
  | None => fresh
  end.

(** [acquireWolfxLock]: [now] is [Date.now()], [fresh] the random id drawn
    when the tab has none. Returns the result, the tab's id ref and the
    storage afterwards. *)
Definition acquireWolfxLock (now : Z) (fresh : string)
  (idRef : option string) (ls : LocalStorage)
  : bool * option string * LocalStorage :=
  let myId := lockIdOr idRef fresh in
  match ls with
  | StorageThrows => (true, Some myId, ls)
  | Storage None => (true, Some myId, Storage (Some (mkLock myId now)))
  | Storage (Some parsed) =>
      if now - lock_ts parsed >? 10000
      then (true, Some myId, Storage (Some (mkLock myId now)))
      else (String.eqb (lock_id parsed) myId, Some myId, ls)
  end.

(** [refreshWolfxLock], run every 3000 ms by [setInterval]. *)
Definition refreshWolfxLock (now : Z) (idRef : option string)
  (ls : LocalStorage) : LocalStorage :=
  match idRef with
  | None => ls
  | Some s =>
      if String.eqb s "" then ls
      else match ls with
           | StorageThrows => ls
           | Storage _ => Storage (Some (mkLock s now))
           end
  end.

Definition refreshIntervalMs : Z := 3000.

(** The three components of what [acquireWolfxLock] returns. *)
Definition acquired (r : bool * option string * LocalStorage) : bool :=
  fst (fst r).
Definition idAfter (r : bool * option string * LocalStorage) : option string :=
  snd (fst r).
Definition storageAfter (r : bool * option string * LocalStorage)
  : LocalStorage := snd r.

(** The [beforeunload] listener. *)
Definition beforeUnload (idRef : option string) (ls : LocalStorage)
  : LocalStorage :=
  match ls with
  | Storage (Some parsed) =>
      match idRef with
      | Some s => if String.eqb (lock_id parsed) s then Storage None else ls
      | None => ls
      end
  | _ => ls
  end.

(** *** Reconnecting the regional sockets *)

Inductive Feed := JMA | SC | FJ.

Record WolfxStatus := mkStatus {
  jmaConnected : bool;
  scConnected : bool;
  fjConnected : bool
}.

(** [wolfxBackoffMsRef] and the connection flags of [wolfxStatus]. *)
Record Wolfx := mkWolfx {
  wolfxBackoffMsRef : Z;
  wolfxStatus : WolfxStatus
}.

(** [useRef(5000)] and the initial status. *)
Definition initialWolfx : Wolfx := mkWolfx 5000 (mkStatus false false false).

Definition setConnected (f : Feed) (b : bool) (st : WolfxStatus) : WolfxStatus :=
  match f with
  | JMA => mkStatus b (scConnected st) (fjConnected st)
  | SC => mkStatus (jmaConnected st) b (fjConnected st)
  | FJ => mkStatus (jmaConnected st) (scConnected st) b
  end.

(** [onopen] of the socket of feed [f]. *)
Definition onopen (f : Feed) (w : Wolfx) : Wolfx :=
  mkWolfx 5000 (setConnected f true (wolfxStatus w)).

(** [onclose] of the socket of feed [f]; [disabled] is what
    [isWolfxDisabled()] answers. Returns the new state and the delay of the
    reconnect timer it sets, if it sets one. *)
Definition onclose (f : Feed) (disabled : bool) (w : Wolfx)
  : Wolfx * option Z :=
  let delay :=
    if disabled then 0 else Z.min 60000 (wolfxBackoffMsRef w * 2) in
  (mkWolfx delay (setConnected f false (wolfxStatus w)),
   if delay >? 0 then Some delay else None).

(** What happens to a socket. *)
Inductive SocketEvent :=
| Opened (f : Feed)
| Closed (f : Feed) (disabled : bool).

Definition socketStep (w : Wolfx) (e : SocketEvent) : Wolfx * option Z :=
  match e with
  | Opened f => (onopen f w, None)
  | Closed f disabled => onclose f disabled w
  end.

(** A sequence of socket events: the final state and the reconnect delays
    scheduled on the way, oldest first. *)
Fixpoint socketRun (w : Wolfx) (es : list SocketEvent) : Wolfx * list Z :=
  match es with
  | [] => (w, [])
  | e :: rest =>
      let '(w1, d) := socketStep w e in
      let '(w2, ds) := socketRun w1 rest in
      (w2, match d with Some x => x :: ds | None => ds end)
  end.

(** A run of consecutive closes: feed and kill-switch reading of each. *)
Definition closes (cs : list (Feed * bool)) : list SocketEvent :=
  map (fun c => Closed (fst c) (snd c)) cs.


End Provider.

(* ================================================================== *)
(** ** The tsunami level of the side bar (Home page, pages/index) *)

Module Home.
Import P2PQuake.

Inductive TsunamiWarning := none | watch | warning | major_warning.

(** The fields of [TransformedData] that matter here. *)
Record TransformedData := mkTransformed {
  intensity : Z;
  magnitude : Q;
  depth : Z;
  location : string;
  tsunamiWarning : TsunamiWarning
}.

Definition hasGrade (g : string) (l : list TsunamiArea) : bool :=
  existsb (fun a => String.eqb (grade a) g) l.

(** The [tsunamiWarning] that [transformData] computes, in both of its
    branches: it knows no major warning. *)
Definition transformTsunamiWarning (tsunamiData : option TsunamiData)
  : TsunamiWarning :=
  match tsunamiData with
  | Some td =>
      if (tsu_code td =? 552) && negb (cancelled td) then
        if hasGrade "Warning" (areas td) then warning
        else if hasGrade "Watch" (areas td) then watch
        else none
      else none
  | None => none
  end.

(** [transformData(data)] for the latest 551 record, if there is one. *)
Definition transformData (tsunamiData : option TsunamiData)
  (data : option EarthquakeData) : TransformedData :=
  match data with
  | Some d =>
      if eq_code d =? 551 then
        let h := hypocenter (earthquake d) in
        mkTransformed (maxScale (earthquake d)) (hypo_magnitude h)
          (hypo_depth h) (hypo_name h) (transformTsunamiWarning tsunamiData)
      else mkTransformed 0 0 0 "" (transformTsunamiWarning tsunamiData)
  | None => mkTransformed 0 0 0 "" (transformTsunamiWarning tsunamiData)
  end.

(** The expression passed as the [tsunamiWarning] prop of [<Sidebar>]. *)
Definition sidebarTsunamiWarning (tsunamiData : option TsunamiData)
  : TsunamiWarning :=
  match tsunamiData with
  | Some td =>
      if (tsu_code td =? 552) && negb (cancelled td) then
        if hasGrade "MajorWarning" (areas td) then major_warning
        else if hasGrade "Warning" (areas td) then warning
        else if hasGrade "Watch" (areas td) then watch
        else none
      else none
  | None => none
  end.

(** The props [<Sidebar {...displayedEarthquakeData} tsunamiWarning={...}>]
    receives: the later attribute replaces the spread one. *)
Definition sidebarProps (displayedEarthquakeData : TransformedData)
  (tsunamiData : option TsunamiData) : TransformedData :=
  mkTransformed (intensity displayedEarthquakeData)
    (magnitude displayedEarthquakeData) (depth displayedEarthquakeData)
    (location displayedEarthquakeData) (sidebarTsunamiWarning tsunamiData).

(** Some area of the record has grade [g]. *)
Definition anyArea (g : string) (td : TsunamiData) : Prop :=
  Exists (fun a => grade a = g) (areas td).

End Home.

(* ================================================================== *)
(** ** The scraped KMA table (src/pages/api/kma.ts, first handler) *)

Module KmaTable.

(** *** String helpers of the runtime *)

(** A string is held as the UTF-8 text of its characters, which are taken
    to be well formed (no lone surrogate). *)

(** The characters [trim] removes and [\s] matches, WhiteSpace and
    LineTerminator of ECMAScript, each as its UTF-8 bytes: U+0009 to
    U+000D, U+0020, U+00A0, U+1680, U+2000 to U+200A, U+2028, U+2029,
    U+202F, U+205F, U+3000 and U+FEFF. *)
Definition whitespaceChars : list (list ascii) :=
  Eval cbv in
    map (map ascii_of_nat)
      [[9]; [10]; [11]; [12]; [13]; [32];
       [194; 160];
       [225; 154; 128];
       [226; 128; 128]; [226; 128; 129]; [226; 128; 130]; [226; 128; 131];
       [226; 128; 132]; [226; 128; 133]; [226; 128; 134]; [226; 128; 135];
       [226; 128; 136]; [226; 128; 137]; [226; 128; 138];
       [226; 128; 168]; [226; 128; 169]; [226; 128; 175];
       [226; 129; 159];
       [227; 128; 128];
       [239; 187; 191]]%nat.

Definition isDigit (c : ascii) : bool :=
  let n := nat_of_ascii c in ((48 <=? n) && (n <=? 57))%nat.

(** [l] without the prefix [p], if it starts with it. *)
Fixpoint stripPrefix (p l : list ascii) : option (list ascii) :=
  match p, l with
  | [], _ => Some l
  | c :: p', c' :: l' => if Ascii.eqb c c' then stripPrefix p' l' else None
  | _ :: _, [] => None
  end.

(** [l] without the one of [chars] it starts with, if any. *)
Fixpoint stripAny (chars : list (list ascii)) (l : list ascii)
  : option (list ascii) :=
  match chars with
  | [] => None
  | w :: rest =>
      match stripPrefix w l with
      | Some l' => Some l'
      | None => stripAny rest l
      end
  end.

(** [l] without the [chars] at its head, at most [fuel] of them. *)
Fixpoint dropAll (chars : list (list ascii)) (fuel : nat) (l : list ascii)
  : list ascii :=
  match fuel with
  | O => l
  | S fuel' =>
      match stripAny chars l with
      | Some l' => dropAll chars fuel' l'
      | None => l
      end
  end.

(** All the white space at the head of [l]. *)
Definition dropWhitespace (l : list ascii) : list ascii :=
  dropAll whitespaceChars (length l) l.

(** All the white space at the end of [l]: the bytes of a character are
    met in reverse there. *)
Definition dropWhitespaceEnd (l : list ascii) : list ascii :=
  rev (dropAll (map (@rev ascii) whitespaceChars) (length l) (rev l)).

Definition trimChars (l : list ascii) : list ascii :=
  dropWhitespaceEnd (dropWhitespace l).

(** [s.trim()] *)
Definition trim (s : string) : string :=
  string_of_list_ascii (trimChars (list_ascii_of_string s)).

(** [s.includes(c)] for a one-character [c]. *)
Definition includes (c : ascii) (s : string) : bool :=
  existsb (Ascii.eqb c) (list_ascii_of_string s).

(** [s.replace(/[ab]/g, '')] *)
Definition removeBoth (a b : ascii) (s : string) : string :=
  string_of_list_ascii
    (filter (fun c => negb (Ascii.eqb c a || Ascii.eqb c b))
            (list_ascii_of_string s)).

(** *** The timestamp pattern *)

(** [\d{n}] at the head of [l]: the digits and the rest. *)
Fixpoint digits (n : nat) (l : list ascii) : option (string * list ascii) :=
  match n with
  | O => Some (EmptyString, l)
  | S n' =>
      match l with
      | c :: rest =>
          if isDigit c then
            match digits n' rest with
            | Some (ds, rest') => Some (String c ds, rest')
            | None => None
            end
          else None
      | [] => None
      end
  end.

(** A literal character at the head of [l]. *)
Definition lit (c : ascii) (l : list ascii) : option (list ascii) :=
  match l with
  | c' :: rest => if Ascii.eqb c' c then Some rest else None
  | [] => None
  end.

(** [\s+] at the head of [l]. What follows in the pattern is a digit, so
    the match takes all the white space there is. *)
Definition spaces1 (l : list ascii) : option (list ascii) :=
  match stripAny whitespaceChars l with
  | Some rest => Some (dropWhitespace rest)
  | None => None
  end.

(** The capture groups of
    [/^(\d{4})\/(\d{2})\/(\d{2})\s+(\d{2}):(\d{2}):(\d{2})$/]. *)
Record KstMatch := mkKst {
  y : string; mo : string; d : string; hh : string; mm : string; ss : string
}.

Definition bind {A B} (o : option A) (f : A -> option B) : option B :=
  match o with Some a => f a | None => None end.

Notation "x <- e ;; k" := (bind e (fun x => k))
  (at level 61, e at next level, right associativity).
Notation "' p <- e ;; k" := (bind e (fun p => k))
  (at level 61, p pattern, e at next level, right associativity).

Definition matchKst (trimmed : string) : option KstMatch :=
  '(y, l) <- digits 4 (list_ascii_of_string trimmed) ;;
  l <- lit "/" l ;;
  '(mo, l) <- digits 2 l ;;
  l <- lit "/" l ;;
  '(d, l) <- digits 2 l ;;
  l <- spaces1 l ;;
  '(hh, l) <- digits 2 l ;;
  l <- lit ":" l ;;
  '(mm, l) <- digits 2 l ;;
  l <- lit ":" l ;;
  '(ss, l) <- digits 2 l ;;
  match l with
  | [] => Some (mkKst y mo d hh mm ss)
  | _ :: _ => None
  end.

(** [KmaEarthquake] *)
Record KmaEarthquake := mkKma {
  time : string;
  location : string;
  depth : Q;
  magnitude : Q;
  intensity : Z;
  latitude : option Q;
  longitude : option Q;
  intensityText : option string
}.

(** A table row: the texts of its [td] cells. *)
Definition Row := list string.

Section Runtime.

(** The runtime functions the handler relies on.
    - [parseFloat s]: the value of [Number.parseFloat(s)] when it is a
      finite number, [None] for NaN and the infinities (every use in the
      handler is followed by [Number.isFinite]);
    - [dateParse s]: [new Date(s).getTime()], [None] for an Invalid Date;
    - [toISOString ms]: [new Date(ms).toISOString()]. *)
Variable parseFloat : string -> option Q.
Variable dateParse : string -> option Z.
Variable toISOString : Z -> string.

Definition parseKstToIsoUtc (input : string) : option string :=
  let trimmed := trim input in
  m <- matchKst trimmed ;;
  kst <- dateParse (y m ++ "-" ++ mo m ++ "-" ++ d m ++ "T"
                    ++ hh m ++ ":" ++ mm m ++ ":" ++ ss m ++ "+09:00") ;;
  Some (toISOString kst).

Definition parseLat (text : string) : option Q :=
  let t := trim text in
  let ns := (if includes "S" t then -1 else 1)%Q in
  let num := trim (removeBoth "N" "S" t) in
  v <- parseFloat num ;;
  Some (ns * v)%Q.

Definition parseLng (text : string) : option Q :=
  let t := trim text in
  let ew := (if includes "W" t then -1 else 1)%Q in
  let num := trim (removeBoth "E" "W" t) in
  v <- parseFloat num ;;
  Some (ew * v)%Q.

(** [get(idx)]: the trimmed text of cell [idx], the empty string when the
    row has no such cell. *)
Definition get (tds : Row) (idx : nat) : string := trim (nth idx tds "").

Definition finiteOr0 (v : option Q) : Q :=
  match v with Some q => q | None => 0%Q end.

Definition orDefault (s dflt : string) : string :=
  if String.eqb s "" then dflt else s.

(** The callback of [.each]: the event a row pushes, if any. The test
    [!iso] also rejects an empty string. *)
Definition rowEvent (tds : Row) : option KmaEarthquake :=
  match tds with
  | [] => None
  | _ :: _ =>
      let timeStr := get tds 1 in
      let magStr := get tds 2 in
      let depthStr := get tds 3 in
      let intenStr := get tds 4 in
      let latStr := get tds 5 in
      let lngStr := get tds 6 in
      let locStr := get tds 7 in
      let iso := parseKstToIsoUtc timeStr in
      let magnitude := parseFloat magStr in
      let depth := parseFloat depthStr in
      let latitude := parseLat latStr in
      let longitude := parseLng lngStr in
      match iso with
      | None => None
      | Some iso =>
          if String.eqb iso "" then None
          else
            Some (mkKma iso (orDefault locStr "대한민국")
                    (finiteOr0 depth) (finiteOr0 magnitude) (-1)
                    latitude longitude
                    (if String.eqb intenStr "" then None else Some intenStr))
      end
  end.

(** The [events] array after the loop over the rows. *)
Fixpoint rowLoop (rows : list Row) : list KmaEarthquake :=
  match rows with
  | [] => []
  | tds :: rest =>
      match rowEvent tds with
      | Some e => e :: rowLoop rest
      | None => rowLoop rest
      end
  end.

(** The comparator of the final sort, [getTime(b) - getTime(a)]; a NaN
    result counts as 0. *)
Definition byTimeDesc (a b : KmaEarthquake) : Z :=
  match dateParse (time b), dateParse (time a) with
  | Some tb, Some ta => tb - ta
  | _, _ => 0
  end.

(** [Array.prototype.sort] is stable; it is modelled by insertion sort. *)
Fixpoint insertSorted (x : KmaEarthquake) (l : list KmaEarthquake)
  : list KmaEarthquake :=
  match l with
  | [] => [x]
  | e :: rest =>
      if byTimeDesc x e <=? 0 then x :: e :: rest else e :: insertSorted x rest
  end.

Definition sortEvents (l : list KmaEarthquake) : list KmaEarthquake :=
  fold_right insertSorted [] l.

(** The [data] of the handler's response. [response] is the table of the
    fetched page, [None] when the fetch fails, answers with an error
    status or anything throws: the handler then answers with no events. *)
Definition handler (response : option (list Row)) : list KmaEarthquake :=
  match response with
  | None => []
  | Some rows => sortEvents (rowLoop rows)
  end.

End Runtime.

(** Stand-ins for the runtime on the strings of the example below. *)
Definition toyParseFloat (s : string) : option Q :=
  if String.eqb s "2.5" then Some 2.5%Q
  else if String.eqb s "12" then Some 12%Q
  else if String.eqb s "36.10" then Some 36.1%Q
  else if String.eqb s "127.50" then Some 127.5%Q
  else None.

Definition toyDateParse (s : string) : option Z :=
  if String.eqb s "2025-01-02T03:04:05+09:00" then Some 1735754645000
  else if String.eqb s "2025-01-01T18:04:05.000Z" then Some 1735754645000
  else if String.eqb s "2025-01-03T03:04:05+09:00" then Some 1735841045000
  else if String.eqb s "2025-01-02T18:04:05.000Z" then Some 1735841045000
  else None.

Definition toyToISOString (ms : Z) : string :=
  if ms =? 1735754645000 then "2025-01-01T18:04:05.000Z"
  else if ms =? 1735841045000 then "2025-01-02T18:04:05.000Z"
  else "".

End KmaTable.

(* ================================================================== *)
(** ** A test encoder for the telemetry wire format

    Production code only decodes. The encoder below packs station and
    intensity tables into the bit layout, so that the decoder can be
    checked against it. *)

Module TelemetryCodec.
Import Telemetry.

(** The [width] low bits of [v], most significant first. *)
Definition bitsBE (width : nat) (v : Z) : list bool :=
  map (fun j => Z.testbit v (Z.of_nat (width - 1 - j))) (seq 0 width).

(** The byte whose bits, most significant first, are [b7 ... b0]. *)
Definition byteOfBits (b7 b6 b5 b4 b3 b2 b1 b0 : bool) : byte :=
  Byte.of_bits (b0, (b1, (b2, (b3, (b4, (b5, (b6, b7))))))).

(** A bit string cut into bytes, the last byte filled up with zero bits. *)
Fixpoint packBits (bits : list bool) : Buffer :=
  match bits with
  | [] => []
  | b7 :: b6 :: b5 :: b4 :: b3 :: b2 :: b1 :: b0 :: rest =>
      byteOfBits b7 b6 b5 b4 b3 b2 b1 b0 :: packBits rest
  | _ =>
      [byteOfBits (nth 0 bits false) (nth 1 bits false) (nth 2 bits false)
                  (nth 3 bits false) (nth 4 bits false) (nth 5 bits false)
                  (nth 6 bits false) false]
  end.

(** A station record on the wire: latitude field, then longitude field. *)
Definition recordBits (r : Z * Z) : list bool :=
  (bitsBE 10 (fst r) ++ bitsBE 10 (snd r))%list.

(** The [.s] file of a table of (latitude field, longitude field) pairs. *)
Definition encodeStations (recs : list (Z * Z)) : Buffer :=
  packBits (flat_map recordBits recs).

(** The [.b] file of an intensity table behind a 4-byte header. *)
Definition encodeMMI (header : Buffer) (table : list Z) : Buffer :=
  (header ++ packBits (flat_map (bitsBE 4) table))%list.

(** The fields of a station table, one after the other. *)
Definition fieldList (recs : list (Z * Z)) : list Z :=
  flat_map (fun r => [fst r; snd r]) recs.

(** [v] fits an unsigned field of [w] bits. *)
Definition inRange (w : nat) (v : Z) : Prop := 0 <= v < 2 ^ Z.of_nat w.

(** The stations the decoder is expected to return for such a pair of
    files: record [i] with entry [i] of the table. *)
Definition expectedStations (recs : list (Z * Z)) (table : list Z)
  : list Station :=
  map (fun ir => decodeStation (Some table) (fst ir) (fst (snd ir)) (snd (snd ir)))
      (combine (seq 0 (length recs)) recs).

End TelemetryCodec.

(* ================================================================== *)
(** ** The two PEWS handlers (src/pages/api/kma.ts): timestamps, proxy,
       stations with fallback *)

Module StationsApi.
Import Telemetry.

(** [String(n)] for an integer. *)
Definition numberToString (n : Z) : string :=
  NilZero.string_of_int (Z.to_int n).

Fixpoint repeatChar (c : ascii) (n : nat) : string :=
  match n with
  | O => ""
  | S n' => String c (repeatChar c n')
  end.

(** [s.padStart(targetLength, c)] for a one-character filler. *)
Definition padStart (targetLength : nat) (c : ascii) (s : string) : string :=
  repeatChar c (targetLength - String.length s) ++ s.

(** What the [getUTC...] methods of a [Date] answer; the month counts
    from 0. *)
Record UTCFields := mkUTC {
  utcFullYear : Z;
  utcMonth : Z;
  utcDate : Z;
  utcHours : Z;
  utcMinutes : Z;
  utcSeconds : Z
}.

(** The timestamp the three handlers build: year, then month + 1, day,
    hours, minutes and seconds, each padded to two characters. *)
Definition formatTimestamp (d : UTCFields) : string :=
  let year := numberToString (utcFullYear d) in
  let month := padStart 2 "0" (numberToString (utcMonth d + 1)) in
  let day := padStart 2 "0" (numberToString (utcDate d)) in
  let hours := padStart 2 "0" (numberToString (utcHours d)) in
  let minutes := padStart 2 "0" (numberToString (utcMinutes d)) in
  let seconds := padStart 2 "0" (numberToString (utcSeconds d)) in
  year ++ month ++ day ++ hours ++ minutes ++ seconds.

(** The decimal digit [n] as a character, and numerals of fixed width:
    what a timestamp is expected to be made of. *)
Definition digitChar (n : Z) : ascii := ascii_of_nat (48 + Z.to_nat n).
Definition twoDigits (n : Z) : string :=
  String (digitChar (n / 10)) (String (digitChar (n mod 10)) "").
Definition fourDigits (n : Z) : string :=
  String (digitChar (n / 1000))
    (String (digitChar (n / 100 mod 10)) (twoDigits (n mod 100))).

Definition dataUrl (timestamp ext : string) : string :=
  "https://www.weather.go.kr/pews/data/" ++ timestamp ++ ext.

(** What the stations handler answers. *)
Inductive StationsResponse :=
| MethodNotAllowed (error : string)
| Success (stations : list Station) (timestamp : string) (source : string)
          (totalStations : Z) (warning : option string)
| Failure (message : string).

(** What the proxy handler answers. *)
Inductive PewsResponse :=
| PewsBody (body : Buffer)
| PewsError (error : string).

Section Runtime.

(** The runtime and the network, as the handlers see them.
    - [utc ms]: the UTC fields of [new Date(ms)];
    - [toISOString ms]: [new Date(ms).toISOString()];
    - [get url]: the body a request for [url] is answered with, [None]
      when the request fails or is answered with an error status. *)
Variable utc : Z -> UTCFields.
Variable toISOString : Z -> string.
Variable get : string -> option Buffer.

(** [fetchStations(timestamp)] with its two requests. *)
Definition fetchStationsAt (timestamp : string) : option (list Station) :=
  fetchStations (get (dataUrl timestamp ".s")) (get (dataUrl timestamp ".b")).

(** The stations handler, called at clock reading [now]. *)
Definition stationsHandler (method : string) (now : Z) : StationsResponse :=
  if negb (String.eqb method "GET")
  then MethodNotAllowed ("Method " ++ method ++ " Not Allowed")
  else
    let utcTime := now - 5000 in
    let timestamp := formatTimestamp (utc utcTime) in
    match fetchStationsAt timestamp with
    | Some stations =>
        Success stations (toISOString now) "realtime"
          (Z.of_nat (length stations)) None
    | None =>
        let oneMinuteAgo := now - 60000 in
        let prevTimestamp := formatTimestamp (utc oneMinuteAgo) in
        match fetchStationsAt prevTimestamp with
        | Some stations =>
            Success stations (toISOString oneMinuteAgo) "1min-delayed"
              (Z.of_nat (length stations))
              (Some "Using data from 1 minute ago")
        | None =>
            Failure "Failed to fetch station data from both current and fallback sources"
        end
    end.

(** The proxy handler of [/api/pews], called at clock reading [now]. *)
Definition pewsHandler (now : Z) : PewsResponse :=
  let timestamp := formatTimestamp (utc now) in
  match get (dataUrl timestamp ".b") with
  | Some buffer => PewsBody buffer
  | None => PewsError "Failed to fetch PEWS data"
  end.

End Runtime.

End StationsApi.

(* ================================================================== *)
(** ** The rest of the provider: history, local test mode, connecting *)

Module ProviderMore.
Import P2PQuake Provider.

(** [d.setDate(d.getDate() - 15); d.setHours(0, 0, 0, 0)] of
    [fetchHistoricalData], with [tz] as in [twoDaysAgo]. *)
Definition fifteenDaysAgo (tz : JSDate.TimeZone) (now : Z) : Z :=
  JSDate.localMidnightBack tz 15 now.

(** [item.code === 551 && new Date(item.time) >= cutoff] *)
Definition isRecentQuake (cutoff : Z) (item : P2PQuakeData) : bool :=
  match item with
  | Code551 d => notBefore cutoff d
  | _ => false
  end.

(** The [as EarthquakeData[]] cast of the filtered history. *)
Fixpoint asEarthquakeData (items : list P2PQuakeData) : list EarthquakeData :=
  match items with
  | [] => []
  | Code551 d :: rest => d :: asEarthquakeData rest
  | _ :: rest => asEarthquakeData rest
  end.

(** [fetchHistoricalData]: [usingLocal] is [usingLocalRef.current] and
    [response] the array the history request is answered with, [None] when
    the request or its parsing fails. (Every entry of the array is taken
    to be an object; a [null] entry is not modelled.) *)
Definition fetchHistoricalData (usingLocal : bool) (tz : JSDate.TimeZone) (now : Z)
  (response : option (list P2PQuakeData)) (s : Store) : Store :=
  if usingLocal then s
  else match response with
       | None => s
       | Some [] => s
       | Some historicalData =>
           let filteredHistoricalData :=
             asEarthquakeData
               (filter (isRecentQuake (fifteenDaysAgo tz now)) historicalData) in
           mkStore (firstn 15 filteredHistoricalData) (eewData s) (tsunamiData s)
       end.

(** The value of [usingLocalRef.current] when [fetchHistoricalData] tests
    it. The mount effect calls [tryStartLocalMode], which sets the flag
    only after its request is answered, and a few lines on, in the same
    run, [fetchHistoricalData]: the flag still has its initial value then,
    whether or not local test mode starts. *)
Definition usingLocalAtMount : bool := false.

(** The history request of the mount effect, answered with [response] at
    clock reading [now]. *)
Definition historyAtMount (tz : JSDate.TimeZone) (now : Z)
  (response : option (list P2PQuakeData)) (s : Store) : Store :=
  fetchHistoricalData usingLocalAtMount tz now response s.

(** The store after the live socket delivered [frames], each with the
    clock reading at its arrival. *)
Definition liveRun (tz : JSDate.TimeZone)
  (frames : list (Z * option P2PQuakeData)) (s : Store) : Store :=
  fold_left (fun s f => onmessage tz (fst f) s (snd f)) frames s.

(** One poll of the local test file (the body of [tryStartLocalMode] and
    of its interval): [response] is the parsed file with its
    [JSON.stringify] text, [None] when the request fails or is not ok. *)
Definition localPoll (tz : JSDate.TimeZone) (now : Z) (response : option (string * Payload))
  (st : option string * Store) : option string * Store :=
  let '(lastLocalHashRef, s) := st in
  match response with
  | None => st
  | Some (hash, json) =>
      match lastLocalHashRef with
      | Some last =>
          if String.eqb last hash then st
          else (Some hash, ingestP2pquakePayload tz now s json)
      | None => (Some hash, ingestP2pquakePayload tz now s json)
      end
  end.





End ProviderMore.

(* ================================================================== *)
(** ** [Array.prototype.sort] with a comparator *)

Module JsSort.

Section Sort.
Context {A : Type}.
Variable compareFn : A -> A -> Z.

(** The sort is stable; it is modelled by insertion sort, each element put
    before the first one it does not have to follow. *)
Fixpoint insertBy (x : A) (l : list A) : list A :=
  match l with
  | [] => [x]
  | e :: rest =>
      if compareFn x e <=? 0 then x :: e :: rest else e :: insertBy x rest
  end.

Definition sortBy (l : list A) : list A := fold_right insertBy [] l.

End Sort.

(** [new Date(s).getTime()] of a string that parses. *)
Definition getTime (dateParse : string -> option Z) (s : string) : Z :=
  match dateParse s with
  | Some t => t
  | None => 0
  end.

End JsSort.

(* ================================================================== *)
(** ** The rest of the Home page: latest record, lists, pinned display *)

Module HomeMore.

(** [earthquakeData.find(item => item.code === 551) || null] *)
Definition latestEarthquakeData (earthquakeData : list P2PQuake.EarthquakeData)
  : option P2PQuake.EarthquakeData :=
  find (fun item => P2PQuake.eq_code item =? 551) earthquakeData.

Inductive Source := JMA | KMA.

(** The [Earthquake] interface of the page: an entry of the recent list. *)
Record Earthquake := mkEarthquake {
  time : string;
  location : string;
  depth : Q;
  magnitude : Q;
  intensity : Z;
  latitude : option Q;
  longitude : option Q;
  points : list P2PQuake.Point;
  intensityText : option string;
  source : option Source
}.

(** *** The list of all earthquakes, one entry per time *)

(** A JavaScript [Map] with string keys: entries in insertion order. *)
Definition JsMap := list (string * Earthquake).

(** [map.set(k, v)]: a present key keeps its place and gets the new value,
    an absent one is added at the end. *)
Fixpoint mapSet (k : string) (v : Earthquake) (m : JsMap) : JsMap :=
  match m with
  | [] => [(k, v)]
  | (k', v') :: rest =>
      if String.eqb k' k then (k, v) :: rest else (k', v') :: mapSet k v rest
  end.

(** [new Map(entries)] *)
Definition newMap (entries : list (string * Earthquake)) : JsMap :=
  fold_left (fun m kv => mapSet (fst kv) (snd kv) m) entries [].

(** [Array.from(new Map(combined.map(item => [item.time, item])).values())] *)
Definition uniqueEarthquakes (combined : list Earthquake) : list Earthquake :=
  map snd (newMap (map (fun item => (time item, item)) combined)).

(** The updater of [setAllEarthquakes]: [newEarthquakes] are the entries
    made of the provider's 551 records. *)
Definition mergeAllEarthquakes (newEarthquakes prevEarthquakes : list Earthquake)
  : list Earthquake :=
  let combined := (newEarthquakes ++ prevEarthquakes)%list in
  firstn 100 (uniqueEarthquakes combined).

(** The last entry of [l] with the time [t]. *)
Definition lastWith (t : string) (l : list Earthquake) : option Earthquake :=
  find (fun x => String.eqb (time x) t) (rev l).

(** *** The recent list *)

Section Recent.

(** [dateParse s]: [new Date(s).getTime()], [None] for an Invalid Date. *)
Variable dateParse : string -> option Z.

(** [(a, b) => new Date(b.time).getTime() - new Date(a.time).getTime()];
    a NaN result counts as 0. *)
Definition byTimeDesc (a b : Earthquake) : Z :=
  match dateParse (time b), dateParse (time a) with
  | Some tb, Some ta => tb - ta
  | _, _ => 0
  end.

Definition recentEarthquakes (allEarthquakes kmaEarthquakes : list Earthquake)
  : list Earthquake :=
  firstn 30 (JsSort.sortBy byTimeDesc (allEarthquakes ++ kmaEarthquakes)%list).

End Recent.

(** *** The pinned display *)

(** What [displayedEarthquakeData] holds: the record [transformData] made
    of the latest 551 record, or the record made of the fields of a list
    entry, with tsunami level none, by a click or by the fallback on the
    pre-rendered list. *)
Inductive Shown :=
| FromLatest (d : Home.TransformedData)
| FromClick (e : Earthquake)
| FromInitial (e : Earthquake).

(** The display state of the page. [inFlight] holds the updates that have
    computed their record and are waiting for the coordinates of its
    points: each sets the displayed record when it resumes. *)
Record Display := mkDisplay {
  displayedEarthquakeData : Shown;
  isTemporaryDisplay : bool;
  remainingTime : Z;
  displaySessionId : Z;
  inFlight : list Home.TransformedData
}.

(** What happens to the display state. [latest] and [tsunamiData] are the
    values the running effect or callback has captured.
    - [Click]: [handleEarthquakeClick] resumes after its points are
      enriched and sets the state;
    - [Tick]: the countdown interval fires;
    - [LatestChanged]: the effect on the latest record runs;
    - [Resumes i]: the [i]-th update in flight resumes;
    - [Fallback]: the effect on the pre-rendered list runs. *)
Inductive DisplayEvent :=
| Click (earthquake : Earthquake)
| Tick (latest : option P2PQuake.EarthquakeData)
       (tsunamiData : option P2PQuake.TsunamiData)
| LatestChanged (latest : option P2PQuake.EarthquakeData)
                (tsunamiData : option P2PQuake.TsunamiData)
| Resumes (i : nat)
| Fallback (initialEarthquakes : list Earthquake)
           (latest : option P2PQuake.EarthquakeData).

Definition handleEarthquakeClick (earthquake : Earthquake) (st : Display)
  : Display :=
  mkDisplay (FromClick earthquake) true 15 (displaySessionId st + 1)
            (inFlight st).

(** One firing of the countdown interval, which runs only while a
    temporary display is active. *)
Definition tick (latest : option P2PQuake.EarthquakeData)
  (tsunamiData : option P2PQuake.TsunamiData) (st : Display) : Display :=
  if isTemporaryDisplay st then
    if remainingTime st <=? 1 then
      mkDisplay (FromLatest (Home.transformData tsunamiData latest)) false 0
                (displaySessionId st) (inFlight st)
    else
      mkDisplay (displayedEarthquakeData st) true (remainingTime st - 1)
                (displaySessionId st) (inFlight st)
  else st.

Definition pointsOf (latest : option P2PQuake.EarthquakeData)
  : list P2PQuake.Point :=
  match latest with
  | Some d => P2PQuake.points d
  | None => []
  end.

(** The effect that follows the latest record: nothing while a temporary
    display is active; a record without points is displayed at once, one
    with points after its points are enriched. *)
Definition latestChanged (latest : option P2PQuake.EarthquakeData)
  (tsunamiData : option P2PQuake.TsunamiData) (st : Display) : Display :=
  if isTemporaryDisplay st then st
  else
    let base := Home.transformData tsunamiData latest in
    match pointsOf latest with
    | [] => mkDisplay (FromLatest base) false (remainingTime st)
              (displaySessionId st) (inFlight st)
    | _ :: _ => mkDisplay (displayedEarthquakeData st) false (remainingTime st)
                  (displaySessionId st) (inFlight st ++ [base])
    end.

Fixpoint removeNth {A} (i : nat) (l : list A) : list A :=
  match i, l with
  | _, [] => []
  | O, _ :: rest => rest
  | S i', x :: rest => x :: removeNth i' rest
  end.

(** An update in flight resumes: [setDisplayedEarthquakeData({...base,
    points: enriched})]. *)
Definition resumes (i : nat) (st : Display) : Display :=
  match nth_error (inFlight st) i with
  | Some base =>
      mkDisplay (FromLatest base) (isTemporaryDisplay st) (remainingTime st)
                (displaySessionId st) (removeNth i (inFlight st))
  | None => st
  end.

(** The fallback on the pre-rendered list while no live record is there. *)
Definition fallback (initialEarthquakes : list Earthquake)
  (latest : option P2PQuake.EarthquakeData) (st : Display) : Display :=
  if isTemporaryDisplay st then st
  else
    let hasLive :=
      match latest with
      | Some d => P2PQuake.eq_code d =? 551
      | None => false
      end in
    match initialEarthquakes with
    | first :: _ =>
        if hasLive then st
        else mkDisplay (FromInitial first) false (remainingTime st)
               (displaySessionId st) (inFlight st)
    | [] => st
    end.

Definition displayStep (st : Display) (e : DisplayEvent) : Display :=
  match e with
  | Click earthquake => handleEarthquakeClick earthquake st
  | Tick latest tsunamiData => tick latest tsunamiData st
  | LatestChanged latest tsunamiData => latestChanged latest tsunamiData st
  | Resumes i => resumes i st
  | Fallback initialEarthquakes latest => fallback initialEarthquakes latest st
  end.

Definition displayRun (st : Display) (es : list DisplayEvent) : Display :=
  fold_left displayStep es st.

Definition isTick (e : DisplayEvent) : bool :=
  match e with Tick _ _ => true | _ => false end.
Definition isClick (e : DisplayEvent) : bool :=
  match e with Click _ => true | _ => false end.
Definition isResumes (e : DisplayEvent) : bool :=
  match e with Resumes _ => true | _ => false end.

(** The number of countdown firings among the events. *)
Definition ticks (es : list DisplayEvent) : Z :=
  Z.of_nat (length (filter isTick es)).

(** The state of the page when it is mounted, [latest] and [tsunamiData]
    being what the provider holds then. *)
Definition initialDisplay (latest : option P2PQuake.EarthquakeData)
  (tsunamiData : option P2PQuake.TsunamiData) : Display :=
  mkDisplay (FromLatest (Home.transformData tsunamiData latest)) false 0 0 [].

End HomeMore.

(* ================================================================== *)
(** ** The map's check of the proxy's answer (src/components/Map.tsx) *)

Module PewsClient.

(** [hay] starts with [needle]. *)
Fixpoint startsWith (needle hay : list byte) : bool :=
  match needle, hay with
  | [], _ => true
  | _ :: _, [] => false
  | n :: needle', h :: hay' => Byte.eqb n h && startsWith needle' hay'
  end.

(** [hay.includes(needle)] on strings of one-byte characters. *)
Fixpoint includesBytes (needle hay : list byte) : bool :=
  startsWith needle hay ||
  match hay with
  | [] => false
  | _ :: hay' => includesBytes needle hay'
  end.

Definition bytesOfString (s : string) : list byte := list_byte_of_string s.

(** [isBinaryData]: the first 100 bytes, read as characters, contain
    neither marker. *)
Definition isBinaryData (data : Telemetry.Buffer) : bool :=
  let header := firstn 100 data in
  negb (includesBytes (bytesOfString "<html") header)
  && negb (includesBytes (bytesOfString "<!DOCTYPE") header).

End PewsClient.

(* ================================================================== *)
(** ** The shape of a KMA timestamp, for stating what the pattern accepts *)

Module KmaShape.
Import KmaTable.

(** [n] characters, all of them digits. *)
Definition digitString (n : nat) (s : string) : bool :=
  (String.length s =? n)%nat && forallb isDigit (list_ascii_of_string s).

(** One or more characters, all of them white space. *)
Definition whitespaceString (s : string) : Prop :=
  exists chars,
    chars <> [] /\
    Forall (fun w => In w whitespaceChars) chars /\
    list_ascii_of_string s = concat chars.

(** U+00A0, the no-break space. *)
Definition nbsp : string := String "194" (String "160" "").

(** The text the groups [m] and the white space [ws] make up. *)
Definition kstText (m : KstMatch) (ws : string) : string :=
  y m ++ "/" ++ mo m ++ "/" ++ d m ++ ws ++ hh m ++ ":" ++ mm m ++ ":" ++ ss m.

(** The string [parseKstToIsoUtc] hands to [Date]. *)
Definition isoText (m : KstMatch) : string :=
  y m ++ "-" ++ mo m ++ "-" ++ d m ++ "T"
  ++ hh m ++ ":" ++ mm m ++ ":" ++ ss m ++ "+09:00".

End KmaShape.

(* ================================================================== *)
(** * Properties *)

(** ** Facts about the 32-bit operators *)

Module JSFacts.
Import JS.

Lemma toInt32_small (z : Z) : - 2 ^ 31 <= z < 2 ^ 31 -> toInt32 z = z.
Proof.
  intros Hz. unfold toInt32.
  rewrite Z.mod_small by lia. lia.
Qed.

Lemma land_1_testbit (a : Z) : Z.land a 1 = Z.b2z (Z.testbit a 0).
Proof.
  change 1 with (Z.ones 1). rewrite Z.land_ones by lia.
  rewrite Z.bit0_mod. reflexivity.
Qed.

Lemma lor_double_bit (v : Z) (b : bool) :
  Z.lor (2 * v) (Z.b2z b) = 2 * v + Z.b2z b.
Proof.
  assert (H : Z.land (2 * v) (Z.b2z b) = 0).
  { destruct b; cbn [Z.b2z]; [| apply Z.land_0_r].
    rewrite land_1_testbit, Z.testbit_even_0. reflexivity. }
  rewrite <- (Z.lxor_lor _ _ H). symmetry. apply Z.add_nocarry_lxor, H.
Qed.

End JSFacts.


(** ** Local midnight some days back *)

Module JSDateFacts.
Import JSDate.

Lemma setDateBack_eq tz n d :
  setDateBack tz n d
  = LocalTime tz d - n * msPerDay
    - offsetOfLocal tz (LocalTime tz d - n * msPerDay).
Proof.
  unfold setDateBack, UTC, MakeDate, Day, TimeWithinDay. cbv zeta.
  assert (H : (LocalTime tz d / msPerDay - n) * msPerDay
              + LocalTime tz d mod msPerDay
              = LocalTime tz d - n * msPerDay).
  { pose proof (Z.div_mod (LocalTime tz d) msPerDay) as Hdm.
    unfold msPerDay in *. lia. }
  rewrite H. reflexivity.
Qed.

(** Where the offsets of the zone lie between [lo] and [hi], local
    midnight [n] days back is between [n] and [n + 1] days before [now],
    give or take twice the spread of the offsets. *)
Lemma localMidnightBack_bounds tz n now lo hi :
  (forall t, lo <= offsetAt tz t <= hi /\ lo <= offsetOfLocal tz t <= hi) ->
  now - (n + 1) * msPerDay - 2 * (hi - lo)
  < localMidnightBack tz n now
  <= now - n * msPerDay + 2 * (hi - lo).
Proof.
  intros Hoff. unfold localMidnightBack, setHoursZero. cbv zeta.
  rewrite setDateBack_eq.
  unfold UTC, MakeDate, Day, LocalTime.
  set (a1 := offsetAt tz now).
  set (l1 := now + a1 - n * msPerDay).
  set (b1 := offsetOfLocal tz l1).
  set (u := l1 - b1).
  set (a2 := offsetAt tz u).
  set (t2 := u + a2).
  set (b2 := offsetOfLocal tz (t2 / msPerDay * msPerDay + 0)).
  pose proof (Hoff now) as [Ha1 _]. fold a1 in Ha1.
  pose proof (Hoff l1) as [_ Hb1]. fold b1 in Hb1.
  pose proof (Hoff u) as [Ha2 _]. fold a2 in Ha2.
  pose proof (Hoff (t2 / msPerDay * msPerDay + 0)) as [_ Hb2]. fold b2 in Hb2.
  pose proof (Z.div_mod t2 msPerDay) as Hdm.
  pose proof (Z.mod_pos_bound t2 msPerDay) as Hmod.
  unfold msPerDay in *.
  subst t2 u l1. lia.
Qed.

(** In a zone of constant offset it is the last local midnight at least
    [n] days back. *)
Lemma localMidnightBack_constant offset n now :
  localMidnightBack (constantZone offset) n now
  = ((now + offset) / msPerDay - n) * msPerDay - offset /\
  now - (n + 1) * msPerDay
  < localMidnightBack (constantZone offset) n now
  <= now - n * msPerDay.
Proof.
  split.
  - unfold localMidnightBack, setHoursZero. cbv zeta. rewrite setDateBack_eq.
    unfold UTC, MakeDate, Day, LocalTime, constantZone.
    cbn [offsetAt offsetOfLocal].
    replace (now + offset - n * msPerDay - offset + offset)
      with (now + offset + (- n) * msPerDay) by lia.
    rewrite Z.div_add by (unfold msPerDay; lia). lia.
  - pose proof (localMidnightBack_bounds (constantZone offset) n now
                  offset offset) as H.
    replace (2 * (offset - offset)) with 0 in H by lia.
    rewrite !Z.sub_0_r, Z.add_0_r in H. apply H.
    intros t. cbn. lia.
Qed.

End JSDateFacts.
(** ** The telemetry decoder *)

Module TelemetryFacts.
Import Telemetry.

Lemma byteZ_range b : 0 <= byteZ b < 256.
Proof.
  unfold byteZ. pose proof (Byte.to_N_bounded b) as H. lia.
Qed.

Lemma byteAt_range buf k : 0 <= byteAt buf k < 256.
Proof.
  unfold byteAt. destruct (nth_error buf k); [apply byteZ_range | lia].
Qed.

Lemma extracted_bit buf k :
  JS.and (JS.shr (byteAt buf (k / 8)) (7 - Z.of_nat (k mod 8))) 1
  = Z.b2z (bitAt buf k).
Proof.
  pose proof (byteAt_range buf (k / 8)) as Hb.
  pose proof (Nat.mod_upper_bound k 8 ltac:(lia)) as Hm.
  unfold JS.and, JS.shr, bitAt.
  set (a := byteAt buf (k / 8)) in *. set (s := 7 - Z.of_nat (k mod 8)).
  assert (Hs : 0 <= s <= 7) by (unfold s; lia).
  rewrite (JSFacts.toInt32_small a) by lia.
  assert (Hr : 0 <= Z.shiftr a s < 256).
  { rewrite Z.shiftr_div_pow2 by lia. split.
    - apply Z.div_pos; lia.
    - apply Z.div_lt_upper_bound; [lia|]. nia. }
  rewrite (JSFacts.toInt32_small (Z.shiftr a s)) by lia.
  change (JS.toInt32 1) with 1.
  rewrite JSFacts.land_1_testbit, Z.shiftr_spec by lia.
  rewrite Z.add_0_l. reflexivity.
Qed.

Lemma readBits_loop_offset buf n : forall v off,
  snd (readBits_loop buf n v off) = (off + n)%nat.
Proof.
  induction n as [|n IH]; intros v off; cbn [readBits_loop snd].
  - lia.
  - rewrite IH. lia.
Qed.

Lemma readBits_loop_value buf n : forall k v off,
  (k + n <= 31)%nat -> 0 <= v < 2 ^ Z.of_nat k ->
  fst (readBits_loop buf n v off) = readValue buf off n v.
Proof.
  induction n as [|n IH]; intros k v off Hk Hv; [reflexivity|].
  cbn [readBits_loop]. unfold readValue. cbn [seq map fold_left].
  rewrite extracted_bit.
  assert (Hp : 2 ^ Z.of_nat (S k) <= 2 ^ 31)
    by (apply Z.pow_le_mono_r; lia).
  assert (Hpk : 2 ^ Z.of_nat (S k) = 2 * 2 ^ Z.of_nat k)
    by (rewrite Nat2Z.inj_succ, Z.pow_succ_r; lia).
  assert (Hshl : JS.shl v 1 = 2 * v).
  { unfold JS.shl. rewrite (JSFacts.toInt32_small v) by lia.
    rewrite Z.shiftl_mul_pow2 by lia. change (2 ^ 1) with 2.
    rewrite JSFacts.toInt32_small; lia. }
  assert (Hb : 0 <= Z.b2z (bitAt buf off) <= 1)
    by (destruct (bitAt buf off); cbn; lia).
  assert (Hor : JS.or (JS.shl v 1) (Z.b2z (bitAt buf off))
                = beStep v (bitAt buf off)).
  { unfold JS.or. rewrite Hshl.
    rewrite !JSFacts.toInt32_small by lia. apply JSFacts.lor_double_bit. }
  rewrite Hor. apply (IH (S k)); [lia|]. unfold beStep. lia.
Qed.

Lemma readBits_spec n r : (n <= 31)%nat ->
  readBits n r = (readValue (buffer r) (bitOffset r) n 0,
                  mkBitReader (buffer r) (bitOffset r + n)).
Proof.
  intros Hn. unfold readBits.
  pose proof (readBits_loop_value (buffer r) n 0 0 (bitOffset r) Hn) as Hv.
  pose proof (readBits_loop_offset (buffer r) n 0 (bitOffset r)) as Ho.
  destruct (readBits_loop (buffer r) n 0 (bitOffset r)) as [v off].
  cbn [fst snd] in *. rewrite Hv, Ho by (cbn; lia). reflexivity.
Qed.

Lemma readBits_reader n r :
  snd (readBits n r) = mkBitReader (buffer r) (bitOffset r + n).
Proof.
  unfold readBits.
  pose proof (readBits_loop_offset (buffer r) n 0 (bitOffset r)) as Ho.
  destruct (readBits_loop (buffer r) n 0 (bitOffset r)) as [v off].
  cbn [snd] in *. now rewrite Ho.
Qed.

Lemma length_byteBits b : length (byteBits b) = 8%nat.
Proof. reflexivity. Qed.

Lemma length_bitstream buf : length (bitstream buf) = (8 * length buf)%nat.
Proof.
  induction buf as [|b buf IH]; [reflexivity|].
  unfold bitstream in *. cbn [flat_map]. rewrite length_app, IH, length_byteBits.
  cbn [length]. lia.
Qed.

Lemma nth_byteBits b j : (j < 8)%nat ->
  nth j (byteBits b) false = Z.testbit (byteZ b) (7 - Z.of_nat j).
Proof.
  intros Hj. unfold byteBits.
  do 8 (destruct j as [|j]; [reflexivity|]). lia.
Qed.

Lemma nth_bitstream buf : forall k,
  nth k (bitstream buf) false = bitAt buf k.
Proof.
  induction buf as [|b buf IH]; intros k.
  - unfold bitAt, byteAt. rewrite nth_error_nil, Z.testbit_0_l.
    now destruct k.
  - unfold bitstream. cbn [flat_map]. fold (bitstream buf).
    destruct (Nat.ltb_spec k 8) as [Hk|Hk].
    + rewrite app_nth1 by (rewrite length_byteBits; lia).
      rewrite nth_byteBits by lia. unfold bitAt, byteAt.
      rewrite Nat.div_small, Nat.mod_small by lia. reflexivity.
    + rewrite app_nth2 by (rewrite length_byteBits; lia).
      rewrite length_byteBits, IH. unfold bitAt, byteAt.
      assert (Hd : (k / 8 = S ((k - 8) / 8))%nat).
      { replace k with ((k - 8) + 1 * 8)%nat at 1 by lia.
        rewrite Nat.div_add by lia. lia. }
      assert (Hm : (k mod 8 = (k - 8) mod 8)%nat).
      { replace k with ((k - 8) + 1 * 8)%nat at 1 by lia.
        apply Nat.Div0.mod_add. }
      rewrite Hd, Hm. reflexivity.
Qed.

Lemma map_nth_seq {A} (d : A) (l : list A) : forall off n,
  (off + n <= length l)%nat ->
  map (fun k => nth k l d) (seq off n) = firstn n (skipn off l).
Proof.
  induction l as [|a l IH]; intros off n H.
  - cbn in H. assert (n = 0%nat) by lia. subst. now destruct off.
  - destruct off as [|off].
    + cbn [skipn]. destruct n as [|n]; [reflexivity|].
      cbn [seq map firstn nth]. f_equal.
      rewrite <- seq_shift, map_map. cbn [nth].
      rewrite (IH 0%nat n) by (cbn in H; lia). reflexivity.
    + cbn [skipn]. rewrite <- seq_shift, map_map. cbn [nth].
      apply IH. cbn in H. lia.
Qed.

Lemma readValue_field buf off n :
  (off + n <= 8 * length buf)%nat ->
  readValue buf off n 0 = field buf off n.
Proof.
  intros H. unfold readValue, field, beValue. f_equal.
  rewrite <- (map_nth_seq false) by (rewrite length_bitstream; lia).
  apply map_ext. intros k. symmetry. apply nth_bitstream.
Qed.

Lemma beValue_bounds bits : forall v, 0 <= v ->
  0 <= fold_left beStep bits v < (v + 1) * 2 ^ Z.of_nat (length bits).
Proof.
  induction bits as [|b bits IH]; intros v Hv.
  - cbn. lia.
  - cbn [fold_left length]. rewrite Nat2Z.inj_succ, Z.pow_succ_r by lia.
    assert (Hb : 0 <= Z.b2z b <= 1) by (destruct b; cbn; lia).
    specialize (IH (beStep v b)). unfold beStep in *.
    assert (H0 : 0 <= 2 * v + Z.b2z b) by lia.
    specialize (IH H0). split; [lia|].
    assert (Hp : 0 < 2 ^ Z.of_nat (length bits)) by (apply Z.pow_pos_nonneg; lia).
    nia.
Qed.

Lemma field_bounds buf off width :
  0 <= field buf off width < 2 ^ Z.of_nat width.
Proof.
  unfold field, beValue.
  pose proof (beValue_bounds (firstn width (skipn off (bitstream buf))) 0
                ltac:(lia)) as [H1 H2].
  split; [exact H1|].
  eapply Z.lt_le_trans; [exact H2|].
  rewrite Z.mul_1_l. apply Z.pow_le_mono_r; [lia|].
  rewrite length_firstn. lia.
Qed.

Lemma stationLoop_spec mmiData buf : forall n i off,
  (off + 20 * n <= 8 * length buf)%nat ->
  stationLoop mmiData n i (mkBitReader buf off)
  = map (fun j => decodeStation mmiData (i + j)
                    (field buf (off + 20 * j) 10)
                    (field buf (off + 20 * j + 10) 10))
        (seq 0 n).
Proof.
  induction n as [|n IH]; intros i off H; [reflexivity|].
  cbn [stationLoop].
  rewrite readBits_spec by lia. cbn [buffer bitOffset].
  rewrite readBits_spec by lia. cbn [buffer bitOffset].
  rewrite !readValue_field by lia.
  cbn [seq map]. f_equal.
  - replace (i + 0)%nat with i by lia.
    replace (off + 20 * 0)%nat with off by lia.
    replace (off + 20 * 0 + 10)%nat with (off + 10)%nat by lia.
    reflexivity.
  - replace (off + 10 + 10)%nat with (off + 20)%nat by lia.
    rewrite IH by lia. rewrite <- seq_shift, map_map.
    apply map_ext. intros j.
    replace (S i + j)%nat with (i + S j)%nat by lia.
    replace (off + 20 + 20 * j)%nat with (off + 20 * S j)%nat by lia.
    reflexivity.
Qed.

Lemma totalStations_nat buf :
  Z.to_nat (Z.of_nat (length buf) * 8 / 20) = stationCount buf.
Proof.
  unfold stationCount.
  replace (Z.of_nat (length buf) * 8) with (Z.of_nat (8 * length buf)) by lia.
  change 20 with (Z.of_nat 20). rewrite <- Nat2Z.inj_div. apply Nat2Z.id.
Qed.

Lemma fetchStations_spec buf mmiResponse :
  fetchStations (Some buf) mmiResponse
  = Some (map (fun j => decodeStation (fetchMMIData mmiResponse) j
                          (field buf (20 * j) 10) (field buf (20 * j + 10) 10))
              (seq 0 (stationCount buf))).
Proof.
  unfold fetchStations, newBitReader. rewrite totalStations_nat.
  rewrite stationLoop_spec.
  - reflexivity.
  - unfold stationCount.
    pose proof (Nat.Div0.mul_div_le (8 * length buf) 20). lia.
Qed.

Lemma fetchStations_nth buf mmiResponse stations i st :
  fetchStations (Some buf) mmiResponse = Some stations ->
  nth_error stations i = Some st ->
  (i < stationCount buf)%nat /\
  st = decodeStation (fetchMMIData mmiResponse) i
         (field buf (20 * i) 10) (field buf (20 * i + 10) 10).
Proof.
  intros Hf Hn.
  assert (Hi : (i < length stations)%nat)
    by (apply nth_error_Some; congruence).
  rewrite fetchStations_spec in Hf. injection Hf as <-.
  rewrite length_map, length_seq in Hi.
  split; [exact Hi|].
  rewrite nth_error_map, nth_error_seq in Hn.
  destruct (Nat.ltb_spec i (stationCount buf)); [|lia].
  cbn in Hn. now injection Hn as <-.
Qed.

(** Rounding to six decimals leaves a number of hundredths as it is. *)


(** Rounding to six decimals leaves a number of hundredths as it is. *)
Lemma Qfloor_half (k : Z) : Qfloor (inject_Z k + (1 # 2)) = k.
Proof.
  unfold Qfloor, Qplus, inject_Z. cbn [Qnum Qden].
  change (Z.pos (1 * 2)) with 2.
  symmetry. apply Z.div_unique with (r := 1); lia.
Qed.

Lemma hundredths_scaled (c z : Z) :
  ((inject_Z c + inject_Z z / 100) * 1000000 + (1 # 2)
   == inject_Z ((100 * c + z) * 10000) + (1 # 2))%Q.
Proof.
  cbv [Qeq Qplus Qmult Qdiv Qinv inject_Z Qnum Qden].
  rewrite ?Pos2Z.inj_mul. lia.
Qed.

Lemma toFixed6_hundredths (c z : Z) :
  (toFixed6 (inject_Z c + inject_Z z / 100) == inject_Z c + inject_Z z / 100)%Q.
Proof.
  unfold toFixed6.
  rewrite (Qfloor_comp _ _ (hundredths_scaled c z)), Qfloor_half.
  cbv [Qeq Qplus Qmult Qdiv Qinv inject_Z Qnum Qden].
  rewrite ?Pos2Z.inj_mul. lia.
Qed.

Lemma toFixed6_comp (x y : Q) : (x == y)%Q -> (toFixed6 x == toFixed6 y)%Q.
Proof.
  intros H. unfold toFixed6.
  rewrite (Qfloor_comp (x * 1000000 + (1 # 2)) (y * 1000000 + (1 # 2))).
  - reflexivity.
  - now rewrite H.
Qed.

Lemma inUlleungdoBox_iff (lat lon : Q) :
  inUlleungdoBox lat lon = true
  <-> (37 <= lat /\ lat <= 38 /\ 120 <= lon /\ lon <= 121)%Q.
Proof.
  unfold inUlleungdoBox. rewrite !andb_true_iff, !Qle_bool_iff. tauto.
Qed.

Lemma decodeStation_latitude mmiData i latBits lonBits :
  (latitude (decodeStation mmiData i latBits lonBits)
   == 30 + inject_Z latBits / 100)%Q.
Proof. cbn [decodeStation latitude]. apply (toFixed6_hundredths 30). Qed.

Lemma decodeStation_longitude mmiData i latBits lonBits :
  let lat := (30 + inject_Z latBits / 100)%Q in
  let lon := (120 + inject_Z lonBits / 100)%Q in
  (longitude (decodeStation mmiData i latBits lonBits)
   == if inUlleungdoBox lat lon then lon + 10 else lon)%Q.
Proof.
  cbn [decodeStation longitude].
  destruct (inUlleungdoBox _ _).
  - rewrite (toFixed6_comp _ (inject_Z 130 + inject_Z lonBits / 100)).
    + rewrite toFixed6_hundredths.
      cbv [Qeq Qplus Qmult Qdiv Qinv inject_Z Qnum Qden].
      rewrite ?Pos2Z.inj_mul. lia.
    + cbv [Qeq Qplus Qmult Qdiv Qinv inject_Z Qnum Qden].
      rewrite ?Pos2Z.inj_mul. lia.
  - apply (toFixed6_hundredths 120).
Qed.

Lemma decodeStation_mmi mmiData i latBits lonBits :
  mmi (decodeStation mmiData i latBits lonBits)
  = match mmiData with
    | Some tbl => nth i tbl 0
    | None => 0
    end.
Proof.
  cbn [decodeStation mmi]. destruct mmiData as [tbl|]; [|reflexivity].
  destruct (Nat.ltb_spec i (length tbl)); [reflexivity|].
  now rewrite nth_overflow.
Qed.

Lemma decodeStation_mmi_table mmiData i latBits lonBits tbl :
  mmiData = Some tbl ->
  mmi (decodeStation mmiData i latBits lonBits) = nth i tbl 0.
Proof. intros ->. apply decodeStation_mmi. Qed.

Lemma readFields_spec buf width : forall n off,
  (width <= 31)%nat ->
  (0 < n -> off + width * n <= 8 * length buf)%nat ->
  readFields n width (mkBitReader buf off)
  = map (fun j => field buf (off + width * j) width) (seq 0 n).
Proof.
  induction n as [|n IH]; intros off Hw H; [reflexivity|].
  specialize (H ltac:(lia)).
  cbn [readFields]. rewrite readBits_spec by lia. cbn [buffer bitOffset].
  rewrite readValue_field by lia. cbn [seq map]. f_equal.
  - f_equal. lia.
  - rewrite IH by lia. rewrite <- seq_shift, map_map.
    apply map_ext. intros j. f_equal. lia.
Qed.

(** The intensity table: the 4-bit fields that follow the 32-bit header. *)
Lemma fetchMMIData_spec mbuf :
  fetchMMIData (Some mbuf)
  = Some (map (fun j => field mbuf (32 + 4 * j) 4)
              (seq 0 (Z.to_nat ((Z.of_nat (length mbuf) * 8 - 32) / 4)))).
Proof.
  unfold fetchMMIData.
  pose proof (readBits_reader 32 (newBitReader mbuf)) as Hr.
  destruct (readBits 32 (newBitReader mbuf)) as [hdr reader].
  cbn [snd newBitReader buffer bitOffset] in Hr. subst reader.
  rewrite readFields_spec; [reflexivity | lia |].
  intros Hn.
  set (q := (Z.of_nat (length mbuf) * 8 - 32) / 4) in *.
  assert (Hq : 0 < q) by lia.
  pose proof (Z.mul_div_le (Z.of_nat (length mbuf) * 8 - 32) 4 ltac:(lia)).
  fold q in H. lia.
Qed.


(** *** The coordinate table *)

(** C1, as the code has it. The station file has no header: records are
    read from bit 0 of the buffer, so a buffer of [totalBits] bits yields
    exactly floor(totalBits / 20) stations. Station [i] (id [i + 1]) is
    decoded from the 20-bit record at bit [20 * i]: a 10-bit unsigned
    latitude field and then a 10-bit unsigned longitude field, each most
    significant bit first, with latitude = 30 + latBits/100 and longitude =
    120 + lonBits/100 (plus 10 inside the Ulleungdo box). *)
Theorem C1_station_table_layout (buf : Buffer) (mmiResponse : option Buffer) :
  exists stations,
    fetchStations (Some buf) mmiResponse = Some stations /\
    Z.of_nat (length stations) = (Z.of_nat (length buf) * 8) / 20 /\
    forall i, (i < length stations)%nat ->
      exists st,
        nth_error stations i = Some st /\
        let latBits := field buf (20 * i) 10 in
        let lonBits := field buf (20 * i + 10) 10 in
        let lat := (30 + inject_Z latBits / 100)%Q in
        let lon := (120 + inject_Z lonBits / 100)%Q in
        0 <= latBits < 1024 /\ 0 <= lonBits < 1024 /\
        id st = Z.of_nat i + 1 /\
        (latitude st == lat)%Q /\
        (longitude st == if inUlleungdoBox lat lon then lon + 10 else lon)%Q.
Proof.
  eexists. split; [apply fetchStations_spec|].
  rewrite length_map, length_seq. split.
  - unfold stationCount. rewrite Nat2Z.inj_div. f_equal. lia.
  - intros i Hi. eexists. split.
    + rewrite nth_error_map, nth_error_seq.
      destruct (Nat.ltb_spec i (stationCount buf)); [|lia]. reflexivity.
    + cbv zeta. repeat split.
      * apply (field_bounds buf (20 * i) 10).
      * apply (field_bounds buf (20 * i) 10).
      * apply (field_bounds buf (20 * i + 10) 10).
      * apply (field_bounds buf (20 * i + 10) 10).
      * apply decodeStation_latitude.
      * apply decodeStation_longitude.
Qed.

(** C1 as the spec words it fails. This buffer has 72 = 32 + 20 * 2 bits:
    four bytes that a header skip would pass over, then the records
    (100, 200) and (0, 0). The stated count floor((72 - 32) / 20) is 2 and
    the stated first station is the one of the record at bit 32, latitude
    31.00. The decoder returns three stations, the first decoded from the
    first 20 bits of the buffer: latitude field 750, latitude 37.50. *)
Lemma C1_no_header_is_skipped :
  let buf := [xbb; x83; x20; x00; x19; x0c; x80; x00; x00] in
  exists st1 st2 st3,
    fetchStations (Some buf) None = Some [st1; st2; st3] /\
    Z.of_nat (length [st1; st2; st3]) = 3 /\
    (Z.of_nat (length buf) * 8 - 32) / 20 = 2 /\
    field buf 0 10 = 750 /\ (latitude st1 == 37.5)%Q /\
    field buf 32 10 = 100 /\ ~ (latitude st1 == 30 + inject_Z 100 / 100)%Q.
Proof.
  intros buf. do 3 eexists. split; [vm_compute; reflexivity|].
  repeat split. vm_compute. discriminate.
Qed.

(** The intensity table is where the 32-bit header is skipped: entry [j]
    is the 4-bit field at bit [32 + 4 * j], and there are
    floor((totalBits - 32) / 4) of them (none for a buffer under 4 bytes). *)
Lemma mmi_table_layout (mbuf : Buffer) :
  exists tbl,
    fetchMMIData (Some mbuf) = Some tbl /\
    Z.of_nat (length tbl) = Z.max 0 ((Z.of_nat (length mbuf) * 8 - 32) / 4) /\
    forall j, (j < length tbl)%nat ->
      nth_error tbl j = Some (field mbuf (32 + 4 * j) 4) /\
      0 <= field mbuf (32 + 4 * j) 4 < 16.
Proof.
  eexists. split; [apply fetchMMIData_spec|].
  rewrite length_map, length_seq. split; [lia|].
  intros j Hj. split.
  - rewrite nth_error_map, nth_error_seq.
    destruct (Nat.ltb_spec j
      (Z.to_nat ((Z.of_nat (length mbuf) * 8 - 32) / 4))); [|lia].
    reflexivity.
  - apply (field_bounds mbuf (32 + 4 * j) 4).
Qed.

(** *** The failure policy *)

(** C7. A failed coordinate fetch fails the whole decode, whatever the
    intensity fetch did. A failed intensity fetch alone does not: every
    station is decoded and gets intensity 0. With an intensity table
    (the 4-bit fields after the 32-bit header of the [.b] file) station
    [i], whose id is [i + 1], gets entry [i] of the table, and 0 when the
    table is shorter. *)
Theorem C7_fetch_failure_policy :
  (forall mmiResponse, fetchStations None mmiResponse = None) /\
  (forall buf, exists stations,
      fetchStations (Some buf) None = Some stations /\
      Z.of_nat (length stations) = (Z.of_nat (length buf) * 8) / 20 /\
      Forall (fun st => mmi st = 0) stations) /\
  (forall buf mbuf, exists stations tbl,
      fetchMMIData (Some mbuf) = Some tbl /\
      tbl = map (fun j => field mbuf (32 + 4 * j) 4)
                (seq 0 (Z.to_nat ((Z.of_nat (length mbuf) * 8 - 32) / 4))) /\
      fetchStations (Some buf) (Some mbuf) = Some stations /\
      Z.of_nat (length stations) = (Z.of_nat (length buf) * 8) / 20 /\
      forall i st, nth_error stations i = Some st ->
        id st = Z.of_nat i + 1 /\
        ((i < length tbl)%nat -> nth_error tbl i = Some (mmi st)) /\
        ((length tbl <= i)%nat -> mmi st = 0)).
Proof.
  assert (Hcount : forall buf,
    Z.of_nat (stationCount buf) = Z.of_nat (length buf) * 8 / 20).
  { intros buf. unfold stationCount. rewrite Nat2Z.inj_div. f_equal. lia. }
  split; [reflexivity|]. split.
  - intros buf. eexists. split; [apply fetchStations_spec|].
    rewrite length_map, length_seq. split; [apply Hcount|].
    apply Forall_forall. intros st Hin. apply in_map_iff in Hin.
    destruct Hin as (j & <- & _). reflexivity.
  - intros buf mbuf. do 2 eexists.
    split; [apply fetchMMIData_spec|]. split; [reflexivity|].
    split; [apply fetchStations_spec|].
    rewrite length_map, length_seq. split; [apply Hcount|].
    intros i st Hn.
    rewrite nth_error_map, nth_error_seq in Hn.
    destruct (Nat.ltb_spec i (stationCount buf)); [|discriminate].
    cbn [option_map Nat.add] in Hn. injection Hn as <-.
    split; [reflexivity|].
    rewrite (decodeStation_mmi_table _ _ _ _ _ (fetchMMIData_spec mbuf)).
    split.
    + intros Hi. apply nth_error_nth'. exact Hi.
    + intros Hi. now apply nth_overflow.
Qed.

(** *** The island correction *)

(** C8. For every decoded station the longitude is the decoded one plus 10
    exactly when the decoded position lies in the box 37 <= latitude <= 38,
    120 <= longitude <= 121; outside the box both coordinates are the
    decoded ones, and the latitude is never changed. *)
Theorem C8_ulleungdo_correction
  (buf : Buffer) (mmiResponse : option Buffer)
  (stations : list Station) (i : nat) (st : Station) :
  fetchStations (Some buf) mmiResponse = Some stations ->
  nth_error stations i = Some st ->
  let lat := (30 + inject_Z (field buf (20 * i) 10) / 100)%Q in
  let lon := (120 + inject_Z (field buf (20 * i + 10) 10) / 100)%Q in
  let inBox := (37 <= lat /\ lat <= 38 /\ 120 <= lon /\ lon <= 121)%Q in
  (latitude st == lat)%Q /\
  ((longitude st == lon + 10)%Q <-> inBox) /\
  (~ inBox -> (longitude st == lon)%Q).
Proof.
  intros Hf Hn lat lon inBox.
  destruct (fetchStations_nth _ _ _ _ _ Hf Hn) as [_ ->].
  split; [apply decodeStation_latitude|].
  pose proof (decodeStation_longitude (fetchMMIData mmiResponse) i
                (field buf (20 * i) 10) (field buf (20 * i + 10) 10)) as Hl.
  cbv zeta in Hl. fold lat lon in Hl.
  pose proof (inUlleungdoBox_iff lat lon) as Hb. fold inBox in Hb.
  destruct (inUlleungdoBox lat lon).
  - split; [|intros Hno; exfalso; apply Hno, Hb; reflexivity].
    split; [intros _; apply Hb; reflexivity | intros _; exact Hl].
  - assert (Hno : ~ inBox) by (intros H; apply Hb in H; discriminate).
    split; [|intros _; exact Hl].
    split; [|intros H; contradiction].
    intros H. exfalso. rewrite Hl in H.
    revert H. cbv [Qeq Qplus Qnum Qden].
    rewrite ?Pos2Z.inj_mul. lia.
Qed.

(** The first record of this buffer decodes to (37.50, 120.50), inside
    the box: its longitude becomes 130.50. *)
Lemma C8_ulleungdo_correction_witness :
  let buf := [xbb; x83; x20; x00; x00] in
  let lat := (30 + inject_Z (field buf 0 10) / 100)%Q in
  let lon := (120 + inject_Z (field buf 10 10) / 100)%Q in
  exists stations st,
    fetchStations (Some buf) None = Some stations /\
    nth_error stations 0 = Some st /\
    (37 <= lat /\ lat <= 38 /\ 120 <= lon /\ lon <= 121)%Q /\
    (longitude st == lon + 10)%Q.
Proof.
  intros buf lat lon.
  assert (Hbox : (37 <= lat /\ lat <= 38 /\ 120 <= lon /\ lon <= 121)%Q)
    by (repeat split; vm_compute; discriminate).
  exists [decodeStation None 0 750 50; decodeStation None 1 0 0].
  exists (decodeStation None 0 750 50).
  assert (Hf : fetchStations (Some buf) None
               = Some [decodeStation None 0 750 50; decodeStation None 1 0 0])
    by reflexivity.
  assert (Hn : nth_error [decodeStation None 0 750 50; decodeStation None 1 0 0] 0
               = Some (decodeStation None 0 750 50)) by reflexivity.
  split; [exact Hf|]. split; [exact Hn|]. split; [exact Hbox|].
  apply (proj2 (C8_ulleungdo_correction buf None _ 0%nat _ Hf Hn)). exact Hbox.
Defined.

End TelemetryFacts.

(** ** Reconnect backoff of the regional sockets *)

Module BackoffFacts.
Import Provider.

Lemma onclose_backoff f disabled w :
  wolfxBackoffMsRef (fst (onclose f disabled w))
  = if disabled then 0 else Z.min 60000 (wolfxBackoffMsRef w * 2).
Proof. reflexivity. Qed.

Lemma onclose_enabled_delay f w :
  0 < wolfxBackoffMsRef w ->
  snd (onclose f false w) = Some (Z.min 60000 (wolfxBackoffMsRef w * 2)).
Proof.
  intros Hb. unfold onclose. cbn [snd].
  destruct (Z.gtb_spec (Z.min 60000 (wolfxBackoffMsRef w * 2)) 0); [reflexivity|lia].
Qed.







(** Five consecutive closes after a successful open. *)
Example five_closes :
  snd (socketRun (onopen JMA initialWolfx)
         (closes [(JMA, false); (SC, false); (FJ, false); (JMA, false); (SC, false)]))
  = [10000; 20000; 40000; 60000; 60000].
Proof. reflexivity. Qed.


(** C10. The three sockets keep one delay between them. A close of any
    feed writes the same value to it, so the delay a feed's close computes
    is twice (capped at 60000) the one left by the previous close, of
    whichever feed; an open of any feed puts the floor back, and the next
    close of any feed then schedules 10000. Only the connection flags are
    per feed. *)
Theorem C10_one_backoff_for_three_sockets :
  (forall f1 f2 disabled w,
     wolfxBackoffMsRef (fst (onclose f1 disabled w))
     = wolfxBackoffMsRef (fst (onclose f2 disabled w))) /\
  (forall f1 f2 w,
     let w1 := fst (onclose f1 false w) in
     wolfxBackoffMsRef w1 = Z.min 60000 (wolfxBackoffMsRef w * 2) /\
     wolfxBackoffMsRef (fst (onclose f2 false w1))
     = Z.min 60000 (Z.min 60000 (wolfxBackoffMsRef w * 2) * 2) /\
     (0 < wolfxBackoffMsRef w ->
      snd (onclose f2 false w1)
      = Some (Z.min 60000 (Z.min 60000 (wolfxBackoffMsRef w * 2) * 2)))) /\
  (forall f1 f2 w,
     wolfxBackoffMsRef (onopen f1 w) = 5000 /\
     snd (onclose f2 false (onopen f1 w)) = Some 10000) /\
  (forall f w,
     wolfxStatus (onopen f w) = setConnected f true (wolfxStatus w) /\
     forall disabled,
       wolfxStatus (fst (onclose f disabled w))
       = setConnected f false (wolfxStatus w)).
Proof.
  split; [reflexivity|]. split.
  - intros f1 f2 w w1. split; [reflexivity|]. split; [reflexivity|].
    intros Hw. apply onclose_enabled_delay.
    subst w1. rewrite onclose_backoff. lia.
  - split; [|intros; split; reflexivity].
    intros f1 f2 w. split; reflexivity.
Qed.

End BackoffFacts.

(** ** The cross-tab lock *)

Module LockFacts.
Import Provider.

Lemma acquire_no_record now fresh idRef :
  acquireWolfxLock now fresh idRef (Storage None)
  = (true, Some (lockIdOr idRef fresh),
     Storage (Some (mkLock (lockIdOr idRef fresh) now))).
Proof. reflexivity. Qed.

Lemma acquire_stale now fresh idRef r :
  now - lock_ts r > 10000 ->
  acquireWolfxLock now fresh idRef (Storage (Some r))
  = (true, Some (lockIdOr idRef fresh),
     Storage (Some (mkLock (lockIdOr idRef fresh) now))).
Proof.
  intros H. unfold acquireWolfxLock.
  destruct (Z.gtb_spec (now - lock_ts r) 10000); [reflexivity|lia].
Qed.

Lemma acquire_fresh now fresh idRef r :
  now - lock_ts r <= 10000 ->
  acquireWolfxLock now fresh idRef (Storage (Some r))
  = (String.eqb (lock_id r) (lockIdOr idRef fresh),
     Some (lockIdOr idRef fresh), Storage (Some r)).
Proof.
  intros H. unfold acquireWolfxLock.
  destruct (Z.gtb_spec (now - lock_ts r) 10000); [lia|reflexivity].
Qed.

(** [lockIdOr] keeps a tab's id once it has one. *)
Lemma lockIdOr_own id fresh : id <> "" -> lockIdOr (Some id) fresh = id.
Proof.
  intros H. unfold lockIdOr.
  destruct (String.eqb_spec id ""); [contradiction|reflexivity].
Qed.

(** The refresh timer checks that the tab has an id, not that the record
    under the key is the tab's own: a tab whose acquire was refused takes
    the record over at its next tick, inside the staleness threshold, and
    its next acquire then succeeds. *)
Example refresh_overwrites_foreign_record :
  let held := Storage (Some (mkLock "tabA" 0)) in
  let tryB := acquireWolfxLock 1000 "tabB" None held in
  acquired tryB = false /\
  storageAfter tryB = held /\
  refreshWolfxLock 3000 (idAfter tryB) (storageAfter tryB)
  = Storage (Some (mkLock "tabB" 3000)) /\
  acquired (acquireWolfxLock 3001 "x" (idAfter tryB)
              (refreshWolfxLock 3000 (idAfter tryB) (storageAfter tryB)))
  = true.
Proof. repeat split. Qed.

(** Stated in general: whoever runs the refresh with an id of its own
    becomes the recorded owner, whatever record was there. *)
Lemma refresh_ignores_owner (now : Z) (id : string) (rec : option LockRecord) :
  id <> "" ->
  refreshWolfxLock now (Some id) (Storage rec) = Storage (Some (mkLock id now)).
Proof.
  intros H. unfold refreshWolfxLock.
  destruct (String.eqb_spec id ""); [contradiction|reflexivity].
Qed.

Lemma refresh_ignores_owner_witness :
  "tabB" <> "" /\
  refreshWolfxLock 3000 (Some "tabB") (Storage (Some (mkLock "tabA" 2900)))
  = Storage (Some (mkLock "tabB" 3000)).
Proof.
  assert (H : "tabB" <> "") by discriminate.
  split; [exact H|].
  exact (refresh_ignores_owner 3000 "tabB" (Some (mkLock "tabA" 2900)) H).
Defined.

(** The record belongs to whichever tab refreshed last. A tab takes the
    free lock and a second tab, within ten seconds, is refused and changes
    nothing. But the refused tab has an id from then on, and its refresh
    makes it the recorded owner; from then, and for ten seconds, the
    first tab's acquire is refused and the second tab's succeeds, until
    the first tab's own refresh takes the record back. *)
Theorem lock_follows_last_refresh (idA idB freshA freshB : string)
  (t0 t1 t2 t3 : Z) :
  idA <> "" -> idB <> "" -> idA <> idB ->
  t1 - t0 <= 10000 -> t3 - t2 <= 10000 ->
  let a0 := acquireWolfxLock t0 idA None (Storage None) in
  let b1 := acquireWolfxLock t1 idB None (storageAfter a0) in
  let ls2 := refreshWolfxLock t2 (idAfter b1) (storageAfter b1) in
  let a3 := acquireWolfxLock t3 freshA (idAfter a0) ls2 in
  let b3 := acquireWolfxLock t3 freshB (idAfter b1) ls2 in
  acquired a0 = true /\
  acquired b1 = false /\ storageAfter b1 = Storage (Some (mkLock idA t0)) /\
  ls2 = Storage (Some (mkLock idB t2)) /\
  acquired a3 = false /\ storageAfter a3 = ls2 /\
  acquired b3 = true /\
  refreshWolfxLock t3 (idAfter a0) ls2 = Storage (Some (mkLock idA t3)).
Proof.
  intros HA HB Hne H10 H32 a0 b1 ls2 a3 b3.
  assert (Ha0 : a0 = (true, Some idA, Storage (Some (mkLock idA t0))))
    by reflexivity.
  assert (Hb1 : b1 = (false, Some idB, Storage (Some (mkLock idA t0)))).
  { unfold b1. rewrite Ha0. unfold storageAfter. cbn [snd].
    rewrite acquire_fresh by (cbn [lock_ts]; lia).
    cbn [lockIdOr lock_id].
    destruct (String.eqb_spec idA idB); [contradiction|reflexivity]. }
  assert (Hls2 : ls2 = Storage (Some (mkLock idB t2))).
  { unfold ls2. rewrite Hb1. unfold idAfter, storageAfter. cbn [fst snd].
    apply refresh_ignores_owner, HB. }
  assert (Ha3 : a3 = (false, Some idA, ls2)).
  { unfold a3. rewrite Ha0, Hls2. unfold idAfter. cbn [fst snd].
    rewrite acquire_fresh by (cbn [lock_ts]; lia).
    rewrite lockIdOr_own by exact HA. cbn [lock_id].
    destruct (String.eqb_spec idB idA); [congruence|reflexivity]. }
  assert (Hb3 : b3 = (true, Some idB, ls2)).
  { unfold b3. rewrite Hb1, Hls2. unfold idAfter. cbn [fst snd].
    rewrite acquire_fresh by (cbn [lock_ts]; lia).
    rewrite lockIdOr_own by exact HB. cbn [lock_id].
    rewrite String.eqb_refl. reflexivity. }
  rewrite Ha0, Hb1, Ha3, Hb3. unfold acquired, storageAfter, idAfter.
  cbn [fst snd].
  repeat (split; [reflexivity|]).
  split; [exact Hls2|]. repeat (split; [reflexivity|]).
  rewrite Hls2. apply refresh_ignores_owner, HA.
Qed.

Lemma lock_follows_last_refresh_witness :
  let a0 := acquireWolfxLock 0 "tabA" None (Storage None) in
  let b1 := acquireWolfxLock 1000 "tabB" None (storageAfter a0) in
  let ls2 := refreshWolfxLock 3000 (idAfter b1) (storageAfter b1) in
  acquired b1 = false /\
  ls2 = Storage (Some (mkLock "tabB" 3000)) /\
  acquired (acquireWolfxLock 4000 "x" (idAfter a0) ls2) = false.
Proof.
  cbv zeta.
  assert (HA : "tabA" <> "") by discriminate.
  assert (HB : "tabB" <> "") by discriminate.
  assert (Hne : "tabA" <> "tabB") by discriminate.
  assert (H10 : 1000 - 0 <= 10000) by lia.
  assert (H32 : 4000 - 3000 <= 10000) by lia.
  pose proof (lock_follows_last_refresh "tabA" "tabB" "x" "y" 0 1000 3000 4000
                HA HB Hne H10 H32) as H.
  cbv zeta in H.
  exact (conj (proj1 (proj2 H))
           (conj (proj1 (proj2 (proj2 (proj2 H))))
                 (proj1 (proj2 (proj2 (proj2 (proj2 H))))))).
Defined.

(** C3, as the code has it. With storage readable, the acquire succeeds
    exactly when there is no record, the record's heartbeat is more than
    10000 ms old, or the record's owner is the caller. It writes
    {selfId, now} in the first two cases only: a fresh record is left as it
    is, whether the caller owns it (success) or not (failure). The refresh
    runs every 3000 ms and, run by the owner, rewrites the heartbeat. So
    after a first acquirer took the free lock, a second id is refused and
    changes nothing as long as the recorded heartbeat is at most 10000 ms
    old, and succeeds, becoming the recorded owner, once it is older. *)
Theorem C3_lock_acquire (now : Z) (fresh : string) (idRef : option string)
  (rec : option LockRecord) :
  let selfId := lockIdOr idRef fresh in
  let r := acquireWolfxLock now fresh idRef (Storage rec) in
  idAfter r = Some selfId /\
  (acquired r = true <->
     rec = None \/
     exists p, rec = Some p /\ (now - lock_ts p > 10000 \/ lock_id p = selfId)) /\
  (rec = None \/ (exists p, rec = Some p /\ now - lock_ts p > 10000) ->
     storageAfter r = Storage (Some (mkLock selfId now))) /\
  ((exists p, rec = Some p /\ now - lock_ts p <= 10000) ->
     storageAfter r = Storage rec) /\
  refreshIntervalMs = 3000 /\
  (forall t ts, selfId <> "" ->
     refreshWolfxLock t (Some selfId) (Storage (Some (mkLock selfId ts)))
     = Storage (Some (mkLock selfId t))) /\
  (forall other t1 fresh1,
     let first := storageAfter (acquireWolfxLock now fresh idRef (Storage None)) in
     other <> "" -> other <> selfId ->
     first = Storage (Some (mkLock selfId now)) /\
     (t1 - now <= 10000 ->
        acquireWolfxLock t1 fresh1 (Some other) first
        = (false, Some other, first)) /\
     (t1 - now > 10000 ->
        acquireWolfxLock t1 fresh1 (Some other) first
        = (true, Some other, Storage (Some (mkLock other t1))))).
Proof.
  intros selfId r. subst r.
  split; [destruct rec as [p|]; unfold acquireWolfxLock;
          [destruct (_ >? _)|]; reflexivity|].
  split; [|split; [|split; [|split; [reflexivity|split]]]].
  - destruct rec as [p|].
    + destruct (Z.gtb_spec (now - lock_ts p) 10000) as [Hs|Hs].
      * rewrite acquire_stale by lia. cbn. split; [|reflexivity].
        intros _. right. exists p. split; [reflexivity|]. left. lia.
      * rewrite acquire_fresh by lia. unfold acquired. cbn [fst].
        fold selfId. rewrite String.eqb_eq. split.
        -- intros He. right. exists p. split; [reflexivity|]. now right.
        -- intros [Hn|(q & Hq & [Hst|Hid])]; [discriminate| |].
           ++ injection Hq as <-. lia.
           ++ now injection Hq as <-.
    + rewrite acquire_no_record. cbn. split; [intros _; now left|reflexivity].
  - intros [->|(p & -> & Hs)].
    + reflexivity.
    + rewrite acquire_stale by lia. reflexivity.
  - intros (p & -> & Hf). rewrite acquire_fresh by lia. reflexivity.
  - intros t ts Hne. unfold refreshWolfxLock.
    destruct (String.eqb_spec selfId ""); [contradiction|reflexivity].
  - intros other t1 fresh1 first Ho Hne. subst first.
    rewrite acquire_no_record. unfold storageAfter. cbn [snd]. fold selfId.
    split; [reflexivity|]. split; intros Ht.
    + rewrite acquire_fresh by (cbn [lock_ts]; lia).
      rewrite lockIdOr_own by assumption. cbn [lock_id].
      destruct (String.eqb_spec selfId other); [congruence|reflexivity].
    + rewrite acquire_stale by (cbn [lock_ts]; lia).
      rewrite lockIdOr_own by assumption. reflexivity.
Qed.

(** C3 as the spec words it fails where it says that every successful
    acquire writes {selfId, now}: the owner re-acquiring its fresh lock at
    time 5000 succeeds and the record keeps its heartbeat of time 0. *)
Lemma C3_owner_reacquire_writes_nothing :
  acquireWolfxLock 5000 "fresh" (Some "tabA") (Storage (Some (mkLock "tabA" 0)))
  = (true, Some "tabA", Storage (Some (mkLock "tabA" 0))) /\
  Storage (Some (mkLock "tabA" 0)) <> Storage (Some (mkLock "tabA" 5000)).
Proof. split; [reflexivity|discriminate]. Qed.

End LockFacts.

(** ** The recent-event store *)

Module StoreFacts.
Import P2PQuake Provider.

(** The cutoff is local midnight two calendar days back: where the offsets
    of the zone lie between [lo] and [hi], between two and three days
    before [now], give or take twice their spread. *)
Lemma twoDaysAgo_bounds tz now lo hi :
  (forall t, lo <= JSDate.offsetAt tz t <= hi /\
             lo <= JSDate.offsetOfLocal tz t <= hi) ->
  now - 3 * dayMs - 2 * (hi - lo) < twoDaysAgo tz now
  <= now - 2 * dayMs + 2 * (hi - lo).
Proof.
  intros H.
  pose proof (JSDateFacts.localMidnightBack_bounds tz 2 now lo hi H) as Hb.
  unfold twoDaysAgo, dayMs. unfold JSDate.msPerDay in Hb. lia.
Qed.

Lemma notBefore_iff cutoff item :
  notBefore cutoff item = true
  <-> exists t, eq_time item = Some t /\ cutoff <= t.
Proof.
  unfold notBefore. destruct (eq_time item) as [t|].
  - rewrite Z.leb_le. split.
    + intros H. now exists t.
    + now intros (t' & [= <-] & H).
  - split; [discriminate|]. now intros (t & H & _).
Qed.

Lemma length_insertCapped cutoff d prev :
  (length (insertCapped cutoff d prev) <= 50)%nat.
Proof. unfold insertCapped. rewrite length_firstn. lia. Qed.

Lemma insertCapped_cons cutoff d prev :
  insertCapped cutoff d prev
  = d :: firstn 49 (filter (notBefore cutoff) prev).
Proof. reflexivity. Qed.

Lemma in_firstn {A} (x : A) n l : In x (firstn n l) -> In x l.
Proof.
  revert l; induction n as [|n IH]; intros [|a l] H; cbn in *; try tauto.
  destruct H as [->|H]; [now left|right; now apply IH].
Qed.

(** C5, as the code has it. Inserting a quake event drops every stored
    entry whose time is before the cutoff (or is no valid date) and puts
    the new event in front of the entries that remain, in their order: the
    live handler keeps all of them, the ingest path cuts the result to its
    first 50 entries. The cutoff is what [setDate(getDate() - 2)] and
    [setHours(0, 0, 0, 0)] make of the clock reading: local midnight of
    the calendar day two days before today. Where the zone's offsets lie
    between [lo] and [hi] it is between two and three days back, give or
    take twice their spread; with a constant offset, between two and three
    days back. So after any insert no entry behind the new head is from
    before the cutoff. *)
Theorem C5_window_insert (tz : JSDate.TimeZone) (now : Z) (s : Store)
  (q : EarthquakeData) :
  let cutoff := twoDaysAgo tz now in
  let kept := filter (notBefore cutoff) (earthquakeData s) in
  let ingested := earthquakeData (handleOne tz now s (Code551 q)) in
  let live := earthquakeData (onmessage tz now s (Some (Code551 q))) in
  cutoff
  = JSDate.UTC tz
      (JSDate.Day
         (JSDate.LocalTime tz
            (JSDate.UTC tz (JSDate.LocalTime tz now - 2 * dayMs))) * dayMs) /\
  (forall lo hi,
     (forall t, lo <= JSDate.offsetAt tz t <= hi /\
                lo <= JSDate.offsetOfLocal tz t <= hi) ->
     now - 3 * dayMs - 2 * (hi - lo) < cutoff
     <= now - 2 * dayMs + 2 * (hi - lo)) /\
  (forall offset,
     let c := twoDaysAgo (JSDate.constantZone offset) now in
     c = ((now + offset) / dayMs - 2) * dayMs - offset /\
     now - 3 * dayMs < c <= now - 2 * dayMs) /\
  ingested = q :: firstn 49 kept /\
  (length ingested <= 50)%nat /\
  live = q :: kept /\
  (forall e, In e kept <->
     In e (earthquakeData s) /\ exists t, eq_time e = Some t /\ cutoff <= t) /\
  (forall e, In e (tl ingested) \/ In e (tl live) ->
     In e (earthquakeData s) /\
     exists t, eq_time e = Some t /\ cutoff <= t).
Proof.
  intros cutoff kept ingested live.
  assert (Hkept : forall e, In e kept <->
     In e (earthquakeData s) /\ exists t, eq_time e = Some t /\ cutoff <= t).
  { intros e. unfold kept. rewrite filter_In, notBefore_iff. reflexivity. }
  split.
  { unfold cutoff, twoDaysAgo, JSDate.localMidnightBack, JSDate.setHoursZero.
    cbv zeta. rewrite JSDateFacts.setDateBack_eq.
    unfold JSDate.MakeDate, dayMs, JSDate.msPerDay. rewrite Z.add_0_r.
    reflexivity. }
  split; [intros lo hi H; apply twoDaysAgo_bounds, H|].
  split.
  { intros offset c.
    pose proof (JSDateFacts.localMidnightBack_constant offset 2 now) as [H1 H2].
    unfold c, twoDaysAgo, dayMs. unfold JSDate.msPerDay in H1, H2.
    split; [exact H1|lia]. }
  split; [reflexivity|].
  split; [apply length_insertCapped|].
  split; [reflexivity|].
  split; [exact Hkept|].
  intros e He.
  assert (Hin : In e kept).
  { destruct He as [He|He]; [|exact He].
    cbn [ingested handleOne earthquakeData] in He.
    rewrite insertCapped_cons in He. cbn [tl] in He.
    eapply in_firstn, He. }
  apply Hkept in Hin. exact Hin.
Qed.

(** C5 as the spec words it fails: at noon of day 3 (UTC) the cutoff is
    the midnight that starts day 1, so an entry from 01:00 of day 1, then
    two days and eleven hours old, is still in the list after an insert. *)
Lemma C5_older_than_two_days_survives :
  let old := mkEarthquakeData 551 (Some (dayMs + 3600000))
               (mkEarthquake 30 "None" (mkHypocenter "A" 35 139 10 4)) "" [] false in
  let new := mkEarthquakeData 551 (Some (3 * dayMs + 43200000))
               (mkEarthquake 30 "None" (mkHypocenter "B" 35 139 10 4)) "" [] false in
  let now := 3 * dayMs + 43200000 in
  now - (dayMs + 3600000) > 2 * dayMs /\
  earthquakeData (handleOne JSDate.utc now (mkStore [old] None None) (Code551 new))
  = [new; old] /\
  earthquakeData (onmessage JSDate.utc now (mkStore [old] None None)
                    (Some (Code551 new)))
  = [new; old].
Proof. repeat split. Qed.

(** Across a change of offset the cutoff need not be two days back. In a
    zone that goes from five to four hours behind UTC on 9 March 2025, at
    00:30 local time of 10 March the cutoff is midnight of 8 March, 47.5
    hours before; at noon of 10 March it is the same midnight, 59 hours
    before, where a constant offset of four hours would give 60. *)
Example twoDaysAgo_across_offset_change :
  twoDaysAgo JSDate.springForward2025 1741581000000 = 1741410000000 /\
  1741581000000 - 1741410000000 = 171000000 /\
  171000000 < 2 * dayMs /\
  twoDaysAgo JSDate.springForward2025 1741622400000 = 1741410000000 /\
  twoDaysAgo (JSDate.constantZone (-14400000)) 1741622400000 = 1741406400000.
Proof. repeat split. Qed.

(** The live socket handler does not cut the list: when every stored
    entry is inside the window the list grows by one, whatever its length. *)
Lemma live_insert_grows (tz : JSDate.TimeZone) (now : Z) (s : Store) (q : EarthquakeData) :
  Forall (fun e => notBefore (twoDaysAgo tz now) e = true) (earthquakeData s) ->
  length (earthquakeData (onmessage tz now s (Some (Code551 q))))
  = S (length (earthquakeData s)).
Proof.
  intros Hall. cbn [onmessage earthquakeData length]. f_equal.
  induction (earthquakeData s) as [|e l IH]; [reflexivity|].
  inversion Hall as [|e' l' He Hl]; subst.
  cbn [filter]. rewrite He. cbn [length]. f_equal. now apply IH.
Qed.

(** 50 stored entries and one more message make 51 on the live path, and
    stay 50 on the ingest path. *)
Lemma live_insert_grows_witness :
  let e := mkEarthquakeData 551 (Some 1000)
             (mkEarthquake 30 "None" (mkHypocenter "A" 35 139 10 4)) "" [] false in
  let full := mkStore (repeat e 50) None None in
  length (earthquakeData (onmessage JSDate.utc 2000 full (Some (Code551 e)))) = 51%nat /\
  length (earthquakeData (handleOne JSDate.utc 2000 full (Code551 e))) = 50%nat.
Proof.
  intros e full. split; [|reflexivity].
  apply (live_insert_grows JSDate.utc 2000 full e).
  apply Forall_forall. intros x Hx. apply repeat_spec in Hx. now subst x.
Defined.

(** *** Tsunami messages *)

(** C2, as the code has it. On the ingest path every tsunami message
    becomes the current tsunami record. A cancelled one leaves the quake
    list untouched. A non-cancelled one, whether or not a quake message
    came with it, puts exactly one made-up 551 record in front of the
    entries inside the window (the list then cut to 50): it is flagged
    synthetic, its time is the clock reading, its magnitude is 3.0 and its
    depth 10, its comment is the fixed note that it derives from tsunami
    information, and its location is the first area's name when there is a
    first area and its name is not empty, the fixed default name
    otherwise. *)
Theorem C2_tsunami_synthesis (tz : JSDate.TimeZone) (now : Z) (s : Store) (tsu : TsunamiData) :
  let s' := handleOne tz now s (Code552 tsu) in
  tsunamiData s' = Some tsu /\
  eewData s' = eewData s /\
  if cancelled tsu then earthquakeData s' = earthquakeData s
  else exists q,
    earthquakeData s'
    = q :: firstn 49 (filter (notBefore (twoDaysAgo tz now)) (earthquakeData s)) /\
    syntheticFromTsunami q = true /\
    eq_code q = 551 /\
    eq_time q = Some now /\
    hypo_magnitude (hypocenter (earthquake q)) = 3%Q /\
    hypo_depth (hypocenter (earthquake q)) = 10 /\
    freeFormComment q = syntheticComment /\
    points q = [] /\
    hypo_name (hypocenter (earthquake q))
    = match areas tsu with
      | a :: _ => if String.eqb (area_name a) "" then defaultAreaName
                  else area_name a
      | [] => defaultAreaName
      end.
Proof.
  cbn [handleOne tsunamiData eewData earthquakeData].
  split; [reflexivity|]. split; [reflexivity|].
  destruct (cancelled tsu); [reflexivity|].
  exists (syntheticQuake now tsu). repeat split.
Qed.

(** C2 as the spec words it fails on the location: a message without
    areas, or whose first area has no name, gets the default name, which
    is not the name of its first area. *)
Lemma C2_location_falls_back_to_default :
  let noAreas := mkTsunamiData 552 (Some 0) false [] in
  let unnamed := mkTsunamiData 552 (Some 0) false [mkTsunamiArea "" "Watch"] in
  let located (tsu : TsunamiData) :=
    map (fun q => hypo_name (hypocenter (earthquake q)))
        (earthquakeData (handleOne JSDate.utc 0 initialStore (Code552 tsu))) in
  located noAreas = [defaultAreaName] /\
  hd_error (map area_name (areas noAreas)) = None /\
  located unnamed = [defaultAreaName] /\
  hd_error (map area_name (areas unnamed)) = Some "" /\
  defaultAreaName <> "".
Proof. repeat split. discriminate. Qed.

(** The live socket handler only stores a tsunami message. *)
Example live_tsunami_is_only_stored :
  let tsu := mkTsunamiData 552 (Some 0) false [mkTsunamiArea "A" "Watch"] in
  earthquakeData (onmessage JSDate.utc 0 initialStore (Some (Code552 tsu))) = [] /\
  tsunamiData (onmessage JSDate.utc 0 initialStore (Some (Code552 tsu))) = Some tsu.
Proof. split; reflexivity. Qed.

Lemma live_tsunami_leaves_quakes (tz : JSDate.TimeZone) (now : Z) (s : Store) (tsu : TsunamiData) :
  earthquakeData (onmessage tz now s (Some (Code552 tsu))) = earthquakeData s /\
  tsunamiData (onmessage tz now s (Some (Code552 tsu))) = Some tsu.
Proof. split; reflexivity. Qed.

End StoreFacts.

(** ** The tsunami level of the side bar *)

Module HomeFacts.
Import P2PQuake Home.

Lemma hasGrade_iff g td : hasGrade g (areas td) = true <-> anyArea g td.
Proof.
  unfold hasGrade, anyArea. rewrite existsb_exists, Exists_exists.
  split; intros (a & Hin & Ha); exists a; split; auto;
    now apply String.eqb_eq.
Qed.

Lemma hasGrade_false g td : hasGrade g (areas td) = false <-> ~ anyArea g td.
Proof.
  rewrite <- hasGrade_iff. destruct (hasGrade g (areas td)); split;
    congruence.
Qed.

(** C6. The level the side bar shows is the one computed from the current
    tsunami record, whatever the displayed quake record carries: none when
    there is no record or the record is cancelled; otherwise the major
    warning if some area has grade MajorWarning, else the warning if some
    area has grade Warning, else the watch if some area has grade Watch,
    else none. *)
Theorem C6_tsunami_grade_resolution
  (displayed : TransformedData) (td : TsunamiData) :
  tsu_code td = 552 ->
  let level := tsunamiWarning (sidebarProps displayed (Some td)) in
  tsunamiWarning (sidebarProps displayed None) = none /\
  (cancelled td = true -> level = none) /\
  (cancelled td = false ->
     (anyArea "MajorWarning" td -> level = major_warning) /\
     (~ anyArea "MajorWarning" td -> anyArea "Warning" td ->
        level = warning) /\
     (~ anyArea "MajorWarning" td -> ~ anyArea "Warning" td ->
        anyArea "Watch" td -> level = watch) /\
     (~ anyArea "MajorWarning" td -> ~ anyArea "Warning" td ->
        ~ anyArea "Watch" td -> level = none)).
Proof.
  intros Hcode level. subst level.
  cbn [sidebarProps tsunamiWarning sidebarTsunamiWarning].
  rewrite Hcode. cbn [Z.eqb Pos.eqb andb].
  split; [reflexivity|]. split.
  - intros ->. reflexivity.
  - intros ->. cbn [negb].
    repeat split;
      repeat match goal with
      | |- _ -> _ => intro
      | H : anyArea _ _ |- _ => apply hasGrade_iff in H; rewrite H
      | H : ~ anyArea _ _ |- _ => apply hasGrade_false in H; rewrite H
      end; reflexivity.
Qed.

(** A watch in one area and a major warning in another: the major warning
    is shown, also over a displayed record that says none. *)
Lemma C6_tsunami_grade_resolution_witness :
  let td := mkTsunamiData 552 (Some 0) false
              [mkTsunamiArea "A" "Watch"; mkTsunamiArea "B" "MajorWarning"] in
  tsu_code td = 552 /\
  tsunamiWarning (sidebarProps (mkTransformed 0 0 0 "" none) (Some td))
  = major_warning.
Proof.
  intros td. split; [reflexivity|].
  apply (C6_tsunami_grade_resolution (mkTransformed 0 0 0 "" none) td eq_refl).
  - reflexivity.
  - right. left. reflexivity.
Defined.

(** The value [transformData] itself computes knows no major warning; the
    side bar never shows it, the prop replaces it. *)
Example transformData_has_no_major_warning :
  let td := mkTsunamiData 552 (Some 0) false [mkTsunamiArea "B" "MajorWarning"] in
  tsunamiWarning (transformData (Some td) None) = none /\
  tsunamiWarning (sidebarProps (transformData (Some td) None) (Some td))
  = major_warning.
Proof. split; reflexivity. Qed.

End HomeFacts.

(** ** The scraped KMA table *)

Module KmaFacts.
Import KmaTable.


Lemma stripPrefix_iff (p l rest : list ascii) :
  stripPrefix p l = Some rest <-> l = (p ++ rest)%list.
Proof.
  revert l. induction p as [|c p IH]; intros l; cbn [stripPrefix app].
  - split; [intros [= ->]; reflexivity|intros ->; reflexivity].
  - destruct l as [|c' l]; [split; discriminate|].
    destruct (Ascii.eqb_spec c c') as [->|Hne].
    + rewrite IH. split; [intros ->; reflexivity|intros [= ->]; reflexivity].
    + split; [discriminate|intros [= H _]; congruence].
Qed.

Lemma stripAny_sound (chars : list (list ascii)) (l rest : list ascii) :
  stripAny chars l = Some rest ->
  exists w, In w chars /\ l = (w ++ rest)%list.
Proof.
  induction chars as [|w chars IH]; cbn [stripAny]; [discriminate|].
  destruct (stripPrefix w l) as [l'|] eqn:Hw.
  - intros [= ->]. exists w. split; [left; reflexivity|].
    apply stripPrefix_iff, Hw.
  - intros H. destruct (IH H) as [w' [Hin Hl]].
    exists w'. split; [right; exact Hin|exact Hl].
Qed.

(** What [dropAll] removes is a sequence of the characters. *)
Lemma dropAll_split (chars : list (list ascii)) (fuel : nat) (l : list ascii) :
  exists ws, Forall (fun w => In w chars) ws /\
             l = (concat ws ++ dropAll chars fuel l)%list.
Proof.
  revert l. induction fuel as [|fuel IH]; intros l; cbn [dropAll].
  - exists []. split; [constructor|reflexivity].
  - destruct (stripAny chars l) as [l'|] eqn:Hs.
    + destruct (stripAny_sound _ _ _ Hs) as [w [Hin Hl]].
      destruct (IH l') as [ws [Hall Hl']].
      exists (w :: ws). split; [constructor; assumption|].
      cbn [concat]. rewrite <- app_assoc, <- Hl'. exact Hl.
    + exists []. split; [constructor|reflexivity].
Qed.




Section WithRuntime.

Variable parseFloat : string -> option Q.
Variable dateParse : string -> option Z.
Variable toISOString : Z -> string.

Local Abbreviation parseKstToIsoUtc := (KmaTable.parseKstToIsoUtc dateParse toISOString).
Local Abbreviation parseLat := (KmaTable.parseLat parseFloat).
Local Abbreviation parseLng := (KmaTable.parseLng parseFloat).
Local Abbreviation rowEvent := (KmaTable.rowEvent parseFloat dateParse toISOString).
Local Abbreviation rowLoop := (KmaTable.rowLoop parseFloat dateParse toISOString).
Local Abbreviation sortEvents := (KmaTable.sortEvents dateParse).
Local Abbreviation insertSorted := (KmaTable.insertSorted dateParse).
Local Abbreviation handler := (KmaTable.handler parseFloat dateParse toISOString).











End WithRuntime.

(** *** A run on a small table *)

Example two_rows_one_event :
  handler toyParseFloat toyDateParse toyToISOString
    (Some [["1"; " 2025/01/02  03:04:05 "; "2.5"; "12"; "Ⅱ"; "36.10 S";
            "127.50 E"; ""];
           ["2"; "2025-01-02 03:04"; "2.5"; "12"; "Ⅱ"; "36.10 N";
            "127.50 E"; "x"]])
  = [mkKma "2025-01-01T18:04:05.000Z" "대한민국" 12 2.5 (-1)
       (Some ((-1) * 36.1)%Q) (Some (1 * 127.5)%Q) (Some "Ⅱ")].
Proof. reflexivity. Qed.

End KmaFacts.

(** ** Round trip through the test encoder *)

Module CodecFacts.
Import Telemetry TelemetryCodec TelemetryFacts.

Lemma byteBits_byteOfBits b7 b6 b5 b4 b3 b2 b1 b0 :
  byteBits (byteOfBits b7 b6 b5 b4 b3 b2 b1 b0)
  = [b7; b6; b5; b4; b3; b2; b1; b0].
Proof.
  destruct b7, b6, b5, b4, b3, b2, b1, b0; reflexivity.
Qed.

(** Packing and reading back gives the bits, then fewer than 8 zero bits. *)
Lemma bitstream_packBits_bounded n : forall bits,
  (length bits <= n)%nat ->
  exists pad, (pad < 8)%nat /\
    bitstream (packBits bits) = (bits ++ repeat false pad)%list.
Proof.
  induction n as [|n IH]; intros bits Hlen.
  - destruct bits; [|cbn in Hlen; lia]. exists 0%nat. split; [lia|reflexivity].
  - destruct bits as [|b7 [|b6 [|b5 [|b4 [|b3 [|b2 [|b1 [|b0 rest]]]]]]]].
    + exists 0%nat. split; [lia|reflexivity].
    + exists 7%nat. split; [lia|]. cbn [packBits nth bitstream flat_map].
      now rewrite byteBits_byteOfBits.
    + exists 6%nat. split; [lia|]. cbn [packBits nth bitstream flat_map].
      now rewrite byteBits_byteOfBits.
    + exists 5%nat. split; [lia|]. cbn [packBits nth bitstream flat_map].
      now rewrite byteBits_byteOfBits.
    + exists 4%nat. split; [lia|]. cbn [packBits nth bitstream flat_map].
      now rewrite byteBits_byteOfBits.
    + exists 3%nat. split; [lia|]. cbn [packBits nth bitstream flat_map].
      now rewrite byteBits_byteOfBits.
    + exists 2%nat. split; [lia|]. cbn [packBits nth bitstream flat_map].
      now rewrite byteBits_byteOfBits.
    + exists 1%nat. split; [lia|]. cbn [packBits nth bitstream flat_map].
      now rewrite byteBits_byteOfBits.
    + destruct (IH rest) as (pad & Hpad & Hrest); [cbn in Hlen; lia|].
      exists pad. split; [exact Hpad|].
      cbn [packBits bitstream flat_map]. fold (bitstream (packBits rest)).
      now rewrite byteBits_byteOfBits, Hrest.
Qed.

Lemma bitstream_packBits bits :
  exists pad, (pad < 8)%nat /\
    bitstream (packBits bits) = (bits ++ repeat false pad)%list.
Proof. apply (bitstream_packBits_bounded (length bits)). lia. Qed.

Lemma bitsBE_succ w v :
  bitsBE (S w) v = Z.testbit v (Z.of_nat w) :: bitsBE w v.
Proof.
  unfold bitsBE. cbn [seq map]. f_equal.
  - f_equal. lia.
  - rewrite <- seq_shift, map_map. apply map_ext_in.
    intros j Hj. apply in_seq in Hj. f_equal. lia.
Qed.

Lemma length_bitsBE w v : length (bitsBE w v) = w.
Proof. unfold bitsBE. now rewrite length_map, length_seq. Qed.

(** Reading [w] bits most significant first gives the value back. *)
Lemma fold_bitsBE w : forall v acc,
  fold_left beStep (bitsBE w v) acc = acc * 2 ^ Z.of_nat w + v mod 2 ^ Z.of_nat w.
Proof.
  induction w as [|w IH]; intros v acc.
  - cbn. rewrite Z.mod_1_r. lia.
  - rewrite bitsBE_succ. cbn [fold_left]. rewrite IH. unfold beStep.
    rewrite Nat2Z.inj_succ, Z.pow_succ_r by lia.
    rewrite (Z.mul_comm 2 (2 ^ Z.of_nat w)).
    rewrite Z.rem_mul_r by (try apply Z.pow_nonzero; lia).
    rewrite Z.testbit_spec' by lia. ring.
Qed.

Lemma beValue_bitsBE w v :
  0 <= v < 2 ^ Z.of_nat w -> beValue (bitsBE w v) = v.
Proof.
  intros Hv. unfold beValue. rewrite fold_bitsBE, Z.mod_small by lia. lia.
Qed.


Lemma skipn_fields w (vs : list Z) (post : list bool) : forall j,
  skipn (w * j) (flat_map (bitsBE w) vs ++ post)
  = (flat_map (bitsBE w) (skipn j vs) ++ post)%list
  \/ (length vs < j)%nat.
Proof.
  induction vs as [|v vs IH]; intros j.
  - destruct j; [left; now rewrite Nat.mul_0_r | right; cbn; lia].
  - destruct j as [|j].
    + left. now rewrite Nat.mul_0_r.
    + destruct (IH j) as [H|H]; [left|right; cbn; lia].
      cbn [flat_map skipn]. rewrite <- app_assoc.
      replace (w * S j)%nat with (length (bitsBE w v) + w * j)%nat
        by (rewrite length_bitsBE; lia).
      rewrite skipn_app, skipn_all2 by lia.
      replace (length (bitsBE w v) + w * j - length (bitsBE w v))%nat
        with (w * j)%nat by lia.
      exact H.
Qed.

(** Field [j] of a stream that carries the [w]-bit fields [vs], after a
    prefix and before anything else, is entry [j] of [vs]. *)
Lemma field_of_fields w (vs : list Z) (pre post : list bool) buf j :
  bitstream buf = (pre ++ flat_map (bitsBE w) vs ++ post)%list ->
  Forall (fun v => 0 <= v < 2 ^ Z.of_nat w) vs ->
  (j < length vs)%nat ->
  field buf (length pre + w * j) w = nth j vs 0.
Proof.
  intros Hbits Hrange Hj. unfold field. rewrite Hbits.
  rewrite skipn_app, skipn_all2 by lia. cbn [app].
  replace (length pre + w * j - length pre)%nat with (w * j)%nat by lia.
  destruct (skipn_fields w vs post j) as [->|H]; [|lia].
  assert (Hs : skipn j vs = nth j vs 0 :: skipn (S j) vs).
  { clear -Hj. revert j Hj. induction vs as [|v vs IH]; intros j Hj;
      [cbn in Hj; lia|].
    destruct j; [reflexivity|]. cbn [skipn nth]. apply IH. cbn in Hj. lia. }
  rewrite Hs. cbn [flat_map]. rewrite <- app_assoc.
  rewrite firstn_app, length_bitsBE, Nat.sub_diag, firstn_O, app_nil_r.
  rewrite firstn_all2 by (rewrite length_bitsBE; lia).
  apply beValue_bitsBE.
  rewrite Forall_forall in Hrange. apply Hrange, nth_In, Hj.
Qed.

Lemma flat_map_fieldList recs :
  flat_map (bitsBE 10) (fieldList recs) = flat_map recordBits recs.
Proof.
  unfold fieldList. induction recs as [|r recs IH]; [reflexivity|].
  cbn [flat_map app]. rewrite IH.
  unfold recordBits. now rewrite <- app_assoc.
Qed.

Lemma length_fieldList recs : length (fieldList recs) = (2 * length recs)%nat.
Proof.
  induction recs as [|r recs IH]; [reflexivity|].
  cbn [fieldList flat_map length app]. fold (fieldList recs). lia.
Qed.

Lemma nth_fieldList recs : forall i, (i < length recs)%nat ->
  nth (2 * i) (fieldList recs) 0 = fst (nth i recs (0, 0)) /\
  nth (2 * i + 1) (fieldList recs) 0 = snd (nth i recs (0, 0)).
Proof.
  induction recs as [|r recs IH]; intros i Hi; [cbn in Hi; lia|].
  destruct i as [|i]; [split; reflexivity|].
  cbn [fieldList flat_map app]. fold (fieldList recs).
  replace (2 * S i)%nat with (S (S (2 * i))) by lia.
  replace (S (S (2 * i)) + 1)%nat with (S (S (2 * i + 1))) by lia.
  cbn [nth]. apply IH. cbn in Hi. lia.
Qed.

Lemma length_flat_recordBits recs :
  length (flat_map recordBits recs) = (20 * length recs)%nat.
Proof.
  induction recs as [|r recs IH]; [reflexivity|].
  cbn [flat_map]. rewrite length_app, IH. unfold recordBits.
  rewrite length_app, !length_bitsBE. cbn [length]. lia.
Qed.

Lemma stationCount_encodeStations recs :
  stationCount (encodeStations recs) = length recs.
Proof.
  unfold stationCount, encodeStations.
  destruct (bitstream_packBits (flat_map recordBits recs)) as (pad & Hpad & Hb).
  apply (f_equal (@length bool)) in Hb.
  rewrite length_bitstream, length_app, repeat_length,
    length_flat_recordBits in Hb.
  rewrite Hb. symmetry. apply (Nat.div_unique _ 20 _ pad); lia.
Qed.

Lemma fields_of_encodeStations recs i :
  Forall (fun r => inRange 10 (fst r) /\ inRange 10 (snd r)) recs ->
  (i < length recs)%nat ->
  field (encodeStations recs) (20 * i) 10 = fst (nth i recs (0, 0)) /\
  field (encodeStations recs) (20 * i + 10) 10 = snd (nth i recs (0, 0)).
Proof.
  intros Hrange Hi.
  destruct (bitstream_packBits (flat_map recordBits recs)) as (pad & _ & Hb).
  fold (encodeStations recs) in Hb. rewrite <- flat_map_fieldList in Hb.
  assert (Hvs : Forall (fun v => 0 <= v < 2 ^ Z.of_nat 10) (fieldList recs)).
  { clear -Hrange. induction Hrange as [|r recs [H1 H2] _ IH];
      [constructor|].
    unfold fieldList in *. cbn [flat_map app].
    constructor; [exact H1|]. constructor; [exact H2|exact IH]. }
  pose proof (nth_fieldList recs i Hi) as [Hf Hs].
  pose proof (length_fieldList recs) as Hl.
  split.
  - rewrite <- Hf.
    replace (20 * i)%nat with (length (@nil bool) + 10 * (2 * i))%nat
      by (cbn [length]; lia).
    apply field_of_fields with (post := repeat false pad);
      [exact Hb | exact Hvs | lia].
  - rewrite <- Hs.
    replace (20 * i + 10)%nat with (length (@nil bool) + 10 * (2 * i + 1))%nat
      by (cbn [length]; lia).
    apply field_of_fields with (post := repeat false pad);
      [exact Hb | exact Hvs | lia].
Qed.


Lemma bitstream_app (b1 b2 : Buffer) :
  bitstream (b1 ++ b2)%list = (bitstream b1 ++ bitstream b2)%list.
Proof. apply flat_map_app. Qed.

Lemma length_flat_bitsBE w vs :
  length (flat_map (bitsBE w) vs) = (w * length vs)%nat.
Proof.
  induction vs as [|v vs IH]; [cbn; lia|].
  cbn [flat_map]. rewrite length_app, IH, length_bitsBE. cbn [length]. lia.
Qed.

Lemma decodeStation_table_ext t1 t2 i a b :
  nth i t1 0 = nth i t2 0 ->
  decodeStation (Some t1) i a b = decodeStation (Some t2) i a b.
Proof.
  intros H. unfold decodeStation. f_equal.
  destruct (Nat.ltb_spec i (length t1)), (Nat.ltb_spec i (length t2));
    [ exact H
    | rewrite H; now apply nth_overflow
    | rewrite <- H; symmetry; now apply nth_overflow
    | reflexivity ].
Qed.

(** The decoded intensity table is the encoded one, followed by one 0
    entry when the last byte was filled up. *)
Lemma fetchMMIData_encodeMMI header table :
  length header = 4%nat ->
  Forall (inRange 4) table ->
  exists extra, (extra <= 1)%nat /\
    fetchMMIData (Some (encodeMMI header table))
    = Some (table ++ repeat 0 extra)%list.
Proof.
  intros Hh Hrange.
  destruct (bitstream_packBits (flat_map (bitsBE 4) table))
    as (pad & Hpad & Hb).
  assert (Hlen : (8 * length (packBits (flat_map (bitsBE 4) table))
                  = 4 * length table + pad)%nat).
  { apply (f_equal (@length bool)) in Hb.
    now rewrite length_bitstream, length_app, repeat_length,
      length_flat_bitsBE in Hb. }
  assert (Hpad4 : pad = 0%nat \/ pad = 4%nat) by lia.
  exists (pad / 4)%nat.
  assert (He : (pad / 4 <= 1)%nat) by (destruct Hpad4 as [->| ->]; cbn; lia).
  split; [exact He|].
  set (tbl := (table ++ repeat 0 (pad / 4))%list).
  assert (Hbits : bitstream (encodeMMI header table)
                  = (bitstream header ++ flat_map (bitsBE 4) tbl ++ [])%list).
  { unfold encodeMMI, tbl. rewrite bitstream_app, Hb, flat_map_app, app_nil_r.
    do 2 f_equal. destruct Hpad4 as [->| ->]; reflexivity. }
  assert (Htbl : Forall (fun v => 0 <= v < 2 ^ Z.of_nat 4) tbl).
  { unfold tbl. apply Forall_app. split; [exact Hrange|].
    apply Forall_forall. intros v Hv. apply repeat_spec in Hv. subst v.
    cbn. lia. }
  assert (Hcount : Z.to_nat ((Z.of_nat (length (encodeMMI header table)) * 8 - 32) / 4)
                   = length tbl).
  { unfold encodeMMI, tbl. rewrite !length_app, repeat_length, Hh.
    replace ((Z.of_nat (4 + length (packBits (flat_map (bitsBE 4) table))) * 8 - 32))
      with (Z.of_nat (4 * length table + pad)) by lia.
    change (Z.of_nat (4 * length table + pad) / 4)
      with (Z.of_nat (4 * length table + pad) / Z.of_nat 4).
    rewrite <- Nat2Z.inj_div, Nat2Z.id.
    destruct Hpad4 as [->| ->].
    - change (0 / 4)%nat with 0%nat. symmetry.
      apply (Nat.div_unique _ 4 _ 0); lia.
    - change (4 / 4)%nat with 1%nat. symmetry.
      apply (Nat.div_unique _ 4 _ 0); lia. }
  rewrite fetchMMIData_spec, Hcount. f_equal.
  transitivity (map (fun j => nth j tbl 0) (seq 0 (length tbl))).
  - apply map_ext_in. intros j Hj. apply in_seq in Hj.
    replace 32%nat with (length (bitstream header))
      by (rewrite length_bitstream; lia).
    apply field_of_fields with (post := []); [exact Hbits|exact Htbl|lia].
  - rewrite map_nth_seq by lia. cbn [skipn]. apply firstn_all.
Qed.

Lemma map_indexed {A B} (g : nat -> A -> B) (d : A) (l : list A) : forall k,
  map (fun j => g (k + j)%nat (nth j l d)) (seq 0 (length l))
  = map (fun ir => g (fst ir) (snd ir)) (combine (seq k (length l)) l).
Proof.
  induction l as [|a l IH]; intros k; [reflexivity|].
  cbn [length seq map combine fst snd nth]. f_equal.
  - f_equal. lia.
  - rewrite <- seq_shift, map_map. rewrite <- (IH (S k)).
    apply map_ext. intros j. cbn [nth]. f_equal. lia.
Qed.

(** Encoding a table of stations and intensities and decoding the two
    files gives the table back: as many stations as records, station [i]
    made of the two fields of record [i] and entry [i] of the intensity
    table (0 when the table is shorter). *)
Theorem codec_round_trip (recs : list (Z * Z)) (table : list Z) (header : Buffer) :
  Forall (fun r => inRange 10 (fst r) /\ inRange 10 (snd r)) recs ->
  Forall (inRange 4) table ->
  length header = 4%nat ->
  fetchStations (Some (encodeStations recs)) (Some (encodeMMI header table))
  = Some (expectedStations recs table).
Proof.
  intros Hrecs Htable Hh.
  destruct (fetchMMIData_encodeMMI header table Hh Htable)
    as (extra & _ & Hm).
  rewrite fetchStations_spec, Hm, stationCount_encodeStations.
  f_equal. unfold expectedStations.
  rewrite <- (map_indexed
    (fun i r => decodeStation (Some table) i (fst r) (snd r)) (0, 0) recs 0).
  apply map_ext_in. intros i Hi. apply in_seq in Hi.
  destruct (fields_of_encodeStations recs i Hrecs ltac:(lia)) as [-> ->].
  cbn [Nat.add]. apply decodeStation_table_ext.
  destruct (Nat.ltb_spec i (length table)).
  - now rewrite app_nth1.
  - rewrite app_nth2 by lia. rewrite (nth_overflow table) by lia.
    destruct (nth_in_or_default (i - length table) (repeat 0 extra) 0)
      as [Hin| ->]; [|reflexivity].
    now apply repeat_spec in Hin.
Qed.

(** Two stations, the first inside the Ulleungdo box, and three
    intensities (an odd number, so the last byte is filled up). *)
Lemma codec_round_trip_witness :
  let recs := [(750, 50); (100, 200)] in
  let table := [7; 10; 3] in
  map (fun st => (id st, mmi st))
      (match fetchStations (Some (encodeStations recs))
               (Some (encodeMMI [x00; x00; xff; x01] table)) with
       | Some sts => sts
       | None => []
       end)
  = [(1, 7); (2, 10)] /\
  fetchStations (Some (encodeStations recs))
    (Some (encodeMMI [x00; x00; xff; x01] table))
  = Some (expectedStations recs table).
Proof.
  intros recs table. split; [reflexivity|].
  apply codec_round_trip.
  - repeat constructor; cbn; lia.
  - repeat constructor; cbn; lia.
  - reflexivity.
Defined.

End CodecFacts.

(** ** More on the station decoder: ranges and truncation *)

Module DecoderFacts.
Import Telemetry TelemetryFacts.

Ltac q_arith :=
  cbv [Qle Qlt Qeq Qplus Qmult Qdiv Qinv inject_Z Qnum Qden];
  rewrite ?Pos2Z.inj_mul; lia.

Lemma nth_in_range (l : list Z) (i : nat) (lo hi : Z) :
  lo <= 0 <= hi -> Forall (fun v => lo <= v <= hi) l -> lo <= nth i l 0 <= hi.
Proof.
  intros H0 Hall. destruct (nth_in_or_default i l 0) as [Hin|Hd].
  - rewrite Forall_forall in Hall. now apply Hall.
  - rewrite Hd. exact H0.
Qed.

Lemma mmi_entry_range mmiResponse i :
  0 <= match fetchMMIData mmiResponse with
       | Some tbl => nth i tbl 0
       | None => 0
       end <= 15.
Proof.
  destruct mmiResponse as [mbuf|]; [|cbn; lia].
  rewrite fetchMMIData_spec. cbv beta iota.
  apply nth_in_range; [lia|].
  apply Forall_forall. intros v Hin. apply in_map_iff in Hin.
  destruct Hin as (j & <- & _).
  pose proof (field_bounds mbuf (32 + 4 * j) 4) as H.
  change (2 ^ Z.of_nat 4) with 16 in H. lia.
Qed.

(** Every station the decoder returns has its id equal to its position
    plus one, a latitude between 30 and 40.23, a longitude between 120 and
    131, an intensity between 0 and 15, and does not lie in the box
    37..38 x 120..121: a station decoded there has been moved east. *)
Theorem station_ranges (buf : Buffer) (mmiResponse : option Buffer)
  (stations : list Station) (i : nat) (st : Station) :
  fetchStations (Some buf) mmiResponse = Some stations ->
  nth_error stations i = Some st ->
  id st = Z.of_nat i + 1 /\ 1 <= id st <= Z.of_nat (length stations) /\
  (30 <= latitude st /\ latitude st <= 40.23)%Q /\
  (120 <= longitude st /\ longitude st <= 131)%Q /\
  0 <= mmi st <= 15 /\
  ~ (37 <= latitude st /\ latitude st <= 38 /\
     120 <= longitude st /\ longitude st <= 121)%Q.
Proof.
  intros Hf Hn.
  assert (Hlen : (i < length stations)%nat)
    by (apply nth_error_Some; congruence).
  destruct (fetchStations_nth _ _ _ _ _ Hf Hn) as [_ ->].
  pose proof (field_bounds buf (20 * i) 10) as Ha.
  pose proof (field_bounds buf (20 * i + 10) 10) as Hb.
  change (2 ^ Z.of_nat 10) with 1024 in Ha, Hb.
  set (a := field buf (20 * i) 10) in *.
  set (b := field buf (20 * i + 10) 10) in *.
  pose proof (decodeStation_latitude (fetchMMIData mmiResponse) i a b) as Hlat.
  pose proof (decodeStation_longitude (fetchMMIData mmiResponse) i a b) as Hlon.
  cbv zeta in Hlon.
  pose proof (inUlleungdoBox_iff (30 + inject_Z a / 100) (120 + inject_Z b / 100))
    as Hbox.
  split; [reflexivity|]. split; [cbn [decodeStation id]; lia|].
  split; [|split; [|split]].
  - rewrite Hlat. split; q_arith.
  - rewrite Hlon. destruct (inUlleungdoBox _ _).
    + destruct Hbox as [Hbox _]. specialize (Hbox eq_refl).
      destruct Hbox as (_ & _ & H1 & H2). split; revert H1 H2; q_arith.
    + split; q_arith.
  - rewrite decodeStation_mmi. apply mmi_entry_range.
  - rewrite Hlat, Hlon. intros (H1 & H2 & H3 & H4).
    destruct (inUlleungdoBox _ _).
    + revert H4. q_arith.
    + destruct Hbox as [_ Hbox]. discriminate Hbox. auto.
Qed.

Lemma station_ranges_witness :
  let buf := [xbb; x83; x20; x00; x00] in
  exists stations st,
    fetchStations (Some buf) None = Some stations /\
    nth_error stations 0 = Some st /\
    (longitude st == 130.5)%Q /\
    ~ (37 <= latitude st /\ latitude st <= 38 /\
       120 <= longitude st /\ longitude st <= 121)%Q.
Proof.
  intros buf.
  exists [decodeStation None 0 750 50; decodeStation None 1 0 0].
  exists (decodeStation None 0 750 50).
  assert (Hf : fetchStations (Some buf) None
               = Some [decodeStation None 0 750 50; decodeStation None 1 0 0])
    by reflexivity.
  assert (Hn : nth_error [decodeStation None 0 750 50; decodeStation None 1 0 0] 0
               = Some (decodeStation None 0 750 50)) by reflexivity.
  split; [exact Hf|]. split; [exact Hn|]. split; [reflexivity|].
  apply (station_ranges buf None _ 0%nat _ Hf Hn).
Defined.

(** *** Truncation *)

Lemma field_prefix (buf more : Buffer) off w :
  (off + w <= 8 * length buf)%nat ->
  field (buf ++ more)%list off w = field buf off w.
Proof.
  intros H. unfold field. f_equal.
  unfold bitstream. rewrite flat_map_app. fold (bitstream buf) (bitstream more).
  pose proof (length_bitstream buf) as Hl.
  rewrite skipn_app, firstn_app, length_skipn.
  replace (w - (length (bitstream buf) - off))%nat with 0%nat by lia.
  now rewrite firstn_O, app_nil_r.
Qed.

(** Bytes that follow a buffer never change the stations decoded from it:
    the longer buffer decodes to the same stations, then possibly more.
    In particular a tail too short for a record adds nothing. *)
Theorem decoding_extends (buf more : Buffer) (mmiResponse : option Buffer) :
  exists stations rest,
    fetchStations (Some buf) mmiResponse = Some stations /\
    fetchStations (Some (buf ++ more)%list) mmiResponse
    = Some (stations ++ rest)%list /\
    (((8 * length buf) mod 20 + 8 * length more < 20)%nat -> rest = []).
Proof.
  set (n := stationCount buf). set (n' := stationCount (buf ++ more)%list).
  assert (Hn : (20 * n <= 8 * length buf)%nat).
  { unfold n, stationCount. apply Nat.Div0.mul_div_le. }
  assert (Hnn : (n <= n')%nat).
  { unfold n, n', stationCount. apply Nat.Div0.div_le_mono.
    rewrite length_app. lia. }
  eexists. eexists. split; [apply fetchStations_spec|]. split.
  - rewrite fetchStations_spec. fold n n'.
    replace n' with (n + (n' - n))%nat by lia.
    rewrite seq_app, map_app. f_equal. f_equal.
    apply map_ext_in. intros j Hj. apply in_seq in Hj.
    rewrite !field_prefix by lia. reflexivity.
  - intros Hshort. fold n n'.
    assert (n' = n).
    { unfold n, n', stationCount. rewrite length_app.
      pose proof (Nat.div_mod_eq (8 * length buf) 20) as Hd.
      symmetry. apply (Nat.div_unique _ 20 _
        ((8 * length buf) mod 20 + 8 * length more)); lia. }
    replace (n' - n)%nat with 0%nat by lia. reflexivity.
Qed.

End DecoderFacts.

(** ** The PEWS handlers *)

Module ApiFacts.
Import Telemetry StationsApi.

Lemma range_check (P : Z -> bool) (lo n : Z) :
  0 <= lo ->
  forallb P (map Z.of_nat (seq (Z.to_nat lo) (Z.to_nat n))) = true ->
  forall z, lo <= z < lo + n -> P z = true.
Proof.
  intros Hlo H z Hz. rewrite forallb_forall in H. apply H.
  apply in_map_iff. exists (Z.to_nat z). split; [lia|].
  apply in_seq. lia.
Qed.

Lemma two_digits_padded (n : Z) :
  0 <= n <= 99 -> padStart 2 "0" (numberToString n) = twoDigits n.
Proof.
  intros H.
  apply String.eqb_eq.
  apply (range_check
    (fun n => String.eqb (padStart 2 "0" (numberToString n)) (twoDigits n))
    0 100); [lia|vm_compute; reflexivity|lia].
Qed.

Lemma four_digits_year (n : Z) :
  1000 <= n <= 9999 -> numberToString n = fourDigits n.
Proof.
  intros H.
  apply String.eqb_eq.
  apply (range_check
    (fun n => String.eqb (numberToString n) (fourDigits n))
    1000 9000); [lia|vm_compute; reflexivity|lia].
Qed.

(** For the fields a [Date] of a four-digit year answers, the timestamp
    is the 14 decimal digits yyyyMMddHHmmss, the month counted from 1. *)
Theorem timestamp_shape (d : UTCFields) :
  1000 <= utcFullYear d <= 9999 ->
  0 <= utcMonth d <= 11 ->
  1 <= utcDate d <= 31 ->
  0 <= utcHours d <= 23 ->
  0 <= utcMinutes d <= 59 ->
  0 <= utcSeconds d <= 59 ->
  formatTimestamp d
  = fourDigits (utcFullYear d) ++ twoDigits (utcMonth d + 1)
    ++ twoDigits (utcDate d) ++ twoDigits (utcHours d)
    ++ twoDigits (utcMinutes d) ++ twoDigits (utcSeconds d) /\
  String.length (formatTimestamp d) = 14%nat.
Proof.
  intros Hy Hm Hd Hh Hmi Hs.
  assert (E : formatTimestamp d
    = fourDigits (utcFullYear d) ++ twoDigits (utcMonth d + 1)
      ++ twoDigits (utcDate d) ++ twoDigits (utcHours d)
      ++ twoDigits (utcMinutes d) ++ twoDigits (utcSeconds d)).
  { unfold formatTimestamp.
    rewrite four_digits_year by lia.
    rewrite !two_digits_padded by lia. reflexivity. }
  split; [exact E|]. rewrite E. reflexivity.
Qed.

(** 2 January 2025, 03:04:05 UTC. *)
Lemma timestamp_shape_witness :
  formatTimestamp (mkUTC 2025 0 2 3 4 5) = "20250102030405" /\
  String.length (formatTimestamp (mkUTC 2025 0 2 3 4 5)) = 14%nat.
Proof.
  pose proof (timestamp_shape (mkUTC 2025 0 2 3 4 5)) as H.
  cbn [utcFullYear utcMonth utcDate utcHours utcMinutes utcSeconds] in H.
  exact (H ltac:(lia) ltac:(lia) ltac:(lia) ltac:(lia) ltac:(lia) ltac:(lia)).
Defined.


(** The stations handler answers by the station file alone. It answers
    405 to any method but GET. To a GET it answers with the stations of
    the file stamped 5 seconds back, marked realtime, when that file can
    be fetched; else with those of the file stamped 60 seconds back,
    marked delayed; and with a failure only when both station files are
    missing. Whether the intensity files can be fetched never changes the
    status, and [totalStations] is always the number of stations sent,
    floor(bits / 20) of the file used. *)
Theorem stations_handler_outcome
  (utc : Z -> UTCFields) (toISOString : Z -> string)
  (get : string -> option Buffer) (now : Z) :
  let ts1 := formatTimestamp (utc (now - 5000)) in
  let ts2 := formatTimestamp (utc (now - 60000)) in
  let answer := stationsHandler utc toISOString get "GET" now in
  (forall method, method <> "GET" ->
     exists e, stationsHandler utc toISOString get method now
               = MethodNotAllowed e) /\
  match get (dataUrl ts1 ".s"), get (dataUrl ts2 ".s") with
  | Some buf, _ =>
      exists stations,
        fetchStations (Some buf) (get (dataUrl ts1 ".b")) = Some stations /\
        Z.of_nat (length stations) = Z.of_nat (length buf) * 8 / 20 /\
        answer = Success stations (toISOString now) "realtime"
                   (Z.of_nat (length stations)) None
  | None, Some buf =>
      exists stations,
        fetchStations (Some buf) (get (dataUrl ts2 ".b")) = Some stations /\
        Z.of_nat (length stations) = Z.of_nat (length buf) * 8 / 20 /\
        answer = Success stations (toISOString (now - 60000)) "1min-delayed"
                   (Z.of_nat (length stations))
                   (Some "Using data from 1 minute ago")
  | None, None => exists m, answer = Failure m
  end.
Proof.
  intros ts1 ts2 answer. split.
  - intros method Hm. unfold stationsHandler.
    destruct (String.eqb_spec method "GET"); [contradiction|].
    cbn [negb]. eexists. reflexivity.
  - assert (Hcount : forall buf m,
      exists stations,
        fetchStations (Some buf) m = Some stations /\
        Z.of_nat (length stations) = Z.of_nat (length buf) * 8 / 20).
    { intros buf m. eexists. split; [apply TelemetryFacts.fetchStations_spec|].
      rewrite length_map, length_seq. unfold stationCount.
      rewrite Nat2Z.inj_div. f_equal. lia. }
    subst answer. unfold stationsHandler, fetchStationsAt.
    cbn [String.eqb Ascii.eqb Bool.eqb negb]. fold ts1 ts2.
    destruct (get (dataUrl ts1 ".s")) as [buf1|].
    + destruct (Hcount buf1 (get (dataUrl ts1 ".b"))) as (sts & Hs & Hl).
      exists sts. rewrite Hs. auto.
    + cbn [fetchStations].
      destruct (get (dataUrl ts2 ".s")) as [buf2|].
      * destruct (Hcount buf2 (get (dataUrl ts2 ".b"))) as (sts & Hs & Hl).
        exists sts. rewrite Hs. auto.
      * eexists. reflexivity.
Qed.

(** The proxy hands the upstream body on unchanged, and the file it asks
    for is the one stamped with the clock reading itself. *)
Example pews_proxy_passes_body :
  let utc := fun _ : Z => mkUTC 2025 0 2 3 4 5 in
  let get := fun url =>
    if String.eqb url "https://www.weather.go.kr/pews/data/20250102030405.b"
    then Some [x01; x02; x03] else None in
  pewsHandler utc get 0 = PewsBody [x01; x02; x03].
Proof. reflexivity. Qed.

End ApiFacts.

(** ** History, local test mode and connecting *)

Module ProviderMoreFacts.
Import P2PQuake Provider ProviderMore.

Lemma fifteenDaysAgo_bounds tz now lo hi :
  (forall t, lo <= JSDate.offsetAt tz t <= hi /\
             lo <= JSDate.offsetOfLocal tz t <= hi) ->
  now - 16 * dayMs - 2 * (hi - lo) < fifteenDaysAgo tz now
  <= now - 15 * dayMs + 2 * (hi - lo).
Proof.
  intros H.
  pose proof (JSDateFacts.localMidnightBack_bounds tz 15 now lo hi H) as Hb.
  unfold fifteenDaysAgo, dayMs. unfold JSDate.msPerDay in Hb. lia.
Qed.

Lemma in_asEarthquakeData items e :
  In e (asEarthquakeData items) <-> In (Code551 e) items.
Proof.
  induction items as [|m items IH]; [reflexivity|].
  destruct m; cbn [asEarthquakeData In]; rewrite IH;
    split; intros H; try (right; exact H);
    try (destruct H as [H|H]; [discriminate|exact H]).
  - destruct H as [->|H]; [now left|now right].
  - destruct H as [[= ->]|H]; [now left|now right].
Qed.

(** Seeding from the history request of the mount effect. The list
    becomes at most 15 of the response's 551 entries, each dated no
    earlier than local midnight 15 calendar days back (between 15 and 16
    days before now, give or take twice the spread of the zone's
    offsets); when no more than 15 qualify, all of them. What the list
    held before is discarded, live events and, in local test mode, the
    records of the test file included: the request is sent before local
    mode can have started. The alert and tsunami records are kept. An
    empty or failed response changes nothing. *)
Theorem history_seed (tz : JSDate.TimeZone) (now : Z)
  (response : list P2PQuakeData) (s : Store) :
  let cutoff := fifteenDaysAgo tz now in
  let s' := historyAtMount tz now (Some response) s in
  (forall lo hi,
     (forall t, lo <= JSDate.offsetAt tz t <= hi /\
                lo <= JSDate.offsetOfLocal tz t <= hi) ->
     now - 16 * dayMs - 2 * (hi - lo) < cutoff
     <= now - 15 * dayMs + 2 * (hi - lo)) /\
  historyAtMount tz now None s = s /\
  (response = [] -> s' = s) /\
  eewData s' = eewData s /\ tsunamiData s' = tsunamiData s /\
  (response <> [] ->
     (length (earthquakeData s') <= 15)%nat /\
     (forall e, In e (earthquakeData s') ->
        In (Code551 e) response /\
        exists t, eq_time e = Some t /\ cutoff <= t) /\
     ((length (filter (isRecentQuake cutoff) response) <= 15)%nat ->
      forall e, In (Code551 e) response -> notBefore cutoff e = true ->
        In e (earthquakeData s')) /\
     (forall s2, earthquakeData (historyAtMount tz now (Some response) s2)
                 = earthquakeData s') /\
     (forall nowLocal file frames,
        let local := snd (localPoll tz nowLocal (Some file) (None, s)) in
        earthquakeData (historyAtMount tz now (Some response) local)
        = earthquakeData s' /\
        earthquakeData
          (historyAtMount tz now (Some response) (liveRun tz frames s))
        = earthquakeData s')).
Proof.
  intros cutoff s'.
  split; [intros lo hi H; apply fifteenDaysAgo_bounds, H|].
  split; [reflexivity|].
  split; [intros ->; reflexivity|].
  split; [destruct response; reflexivity|].
  split; [destruct response; reflexivity|].
  intros Hne. destruct response as [|m rest]; [contradiction|].
  set (resp := m :: rest) in *.
  assert (Hs : earthquakeData s'
               = firstn 15 (asEarthquakeData (filter (isRecentQuake cutoff) resp)))
    by reflexivity.
  split; [rewrite Hs, length_firstn; lia|]. split; [|split; [|split]].
  - intros e He. rewrite Hs in He. apply StoreFacts.in_firstn in He.
    apply in_asEarthquakeData, filter_In in He. destruct He as [Hin Hq].
    split; [exact Hin|]. now apply StoreFacts.notBefore_iff.
  - intros Hfew e Hin Hq. rewrite Hs, firstn_all2.
    + apply in_asEarthquakeData, filter_In. split; [exact Hin|exact Hq].
    + etransitivity; [|exact Hfew].
      clear. induction (filter (isRecentQuake cutoff) resp) as [|x l IH];
        [reflexivity|].
      destruct x; cbn [asEarthquakeData length]; lia.
  - reflexivity.
  - intros nowLocal file frames local. split; reflexivity.
Qed.

(** *** The cap on the ingest path *)

Lemma handleOne_length (tz : JSDate.TimeZone) now s d :
  (length (earthquakeData (handleOne tz now s d))
   <= Nat.max 50 (length (earthquakeData s)))%nat.
Proof.
  destruct d as [q|e|tsu|c|]; cbn [handleOne earthquakeData]; try lia.
  - pose proof (StoreFacts.length_insertCapped (twoDaysAgo tz now) q
                  (earthquakeData s)). lia.
  - destruct (cancelled tsu); [lia|].
    pose proof (StoreFacts.length_insertCapped (twoDaysAgo tz now)
                  (syntheticQuake now tsu) (earthquakeData s)). lia.
Qed.

(** Whatever is ingested, one message or an array of any messages, the
    list never grows beyond 50 entries (nor beyond its length, if it was
    longer before). *)
Theorem ingest_keeps_cap (tz : JSDate.TimeZone) (now : Z) (s : Store) (payload : Payload) :
  (length (earthquakeData (ingestP2pquakePayload tz now s payload))
   <= Nat.max 50 (length (earthquakeData s)))%nat.
Proof.
  destruct payload as [d|ds]; cbn [ingestP2pquakePayload];
    [apply handleOne_length|].
  revert s. induction ds as [|d ds IH]; intros s; cbn [fold_left]; [lia|].
  etransitivity; [apply IH|].
  pose proof (handleOne_length tz now s d). lia.
Qed.

(** *** What the live socket can put into the store *)

Lemma in_filter_in {A} (f : A -> bool) (x : A) (l : list A) :
  In x (filter f l) -> In x l.
Proof. intros H. apply filter_In in H. tauto. Qed.

(** Whatever frames the live socket delivers, tsunami messages among
    them, it makes up no quake record: every record of the list
    afterwards was in the list before or arrived as a 551 message, so
    where none of those is flagged synthetic none of the list is; and
    the tsunami record is the last 552 message that arrived, the stored
    one if none did. *)
Theorem live_feed_never_synthesizes (tz : JSDate.TimeZone)
  (frames : list (Z * option P2PQuakeData)) (s : Store) :
  let s' := liveRun tz frames s in
  (forall q, In q (earthquakeData s') ->
     In q (earthquakeData s) \/
     exists now, In (now, Some (Code551 q)) frames) /\
  ((forall q, In q (earthquakeData s) -> syntheticFromTsunami q = false) ->
   (forall now q, In (now, Some (Code551 q)) frames ->
      syntheticFromTsunami q = false) ->
   forall q, In q (earthquakeData s') -> syntheticFromTsunami q = false) /\
  tsunamiData s'
  = fold_left (fun last f => match snd f with
                             | Some (Code552 tsu) => Some tsu
                             | _ => last
                             end) frames (tsunamiData s).
Proof.
  cbv zeta.
  assert (Hmem : forall frames s q,
            In q (earthquakeData (liveRun tz frames s)) ->
            In q (earthquakeData s) \/
            exists now, In (now, Some (Code551 q)) frames).
  { clear. intros frames. induction frames as [|[now ev] frames IH]; intros s q Hq.
    - left. exact Hq.
    - unfold liveRun in Hq. cbn [fold_left fst snd] in Hq.
      fold (liveRun tz frames (onmessage tz now s ev)) in Hq.
      apply IH in Hq. destruct Hq as [Hq|[now' Hq]].
      + destruct ev as [[d|d|d|c|]|]; cbn [onmessage earthquakeData] in Hq;
          try (left; exact Hq).
        destruct Hq as [<-|Hq].
        * right. exists now. left. reflexivity.
        * left. apply in_filter_in in Hq. exact Hq.
      + right. exists now'. right. exact Hq. }
  split; [apply Hmem|]. split.
  - intros Hs Hf q Hq. apply Hmem in Hq. destruct Hq as [Hq|[now Hq]].
    + apply Hs, Hq.
    + apply (Hf now), Hq.
  - revert s. induction frames as [|[now ev] frames IH]; intros s; [reflexivity|].
    unfold liveRun. cbn [fold_left fst snd].
    fold (liveRun tz frames (onmessage tz now s ev)). rewrite IH.
    destruct ev as [[d|d|d|c|]|]; reflexivity.
Qed.

(** *** Polling the local test file *)

(** Polling a file that has not changed does nothing: however often the
    same content is polled, it is ingested once. *)
Theorem localPoll_idempotent (tz : JSDate.TimeZone) (now now' : Z)
  (response : option (string * Payload)) (st : option string * Store) :
  localPoll tz now' response (localPoll tz now response st)
  = localPoll tz now response st.
Proof.
  destruct st as [last s]. destruct response as [[hash json]|]; [|reflexivity].
  cbn [localPoll]. destruct last as [last|].
  - destruct (String.eqb_spec last hash) as [->|Hne].
    + cbn [localPoll]. now rewrite String.eqb_refl.
    + cbn [localPoll]. now rewrite String.eqb_refl.
  - cbn [localPoll]. now rewrite String.eqb_refl.
Qed.

(** A non-cancelled tsunami message in the file gives one placeholder
    record, not one per poll. *)
Example repeated_poll_one_placeholder :
  let tsu := mkTsunamiData 552 (Some 0) false [mkTsunamiArea "A" "Watch"] in
  let file := Some ("h1", Single (Code552 tsu)) in
  let st3 := localPoll JSDate.utc 4000 file (localPoll JSDate.utc 2000 file
               (localPoll JSDate.utc 0 file (None, initialStore))) in
  length (earthquakeData (snd st3)) = 1%nat.
Proof. reflexivity. Qed.

(** *** Releasing the lock *)

(** The unload handler removes the record exactly when the tab's id is
    the recorded owner; after the owner's release any tab acquires the
    lock at once, without waiting for the record to go stale. *)
Theorem release_frees_lock (id : string) (ts : Z) :
  let held := Storage (Some (mkLock id ts)) in
  beforeUnload (Some id) held = Storage None /\
  (forall other, other <> id -> beforeUnload (Some other) held = held) /\
  beforeUnload None held = held /\
  (forall idRef, beforeUnload idRef (Storage None) = Storage None) /\
  (forall now fresh idRef,
     acquireWolfxLock now fresh idRef (beforeUnload (Some id) held)
     = (true, Some (lockIdOr idRef fresh),
        Storage (Some (mkLock (lockIdOr idRef fresh) now)))).
Proof.
  intros held. cbn [beforeUnload held lock_id].
  rewrite String.eqb_refl. split; [reflexivity|]. split.
  - intros other Hne. destruct (String.eqb_spec id other); [congruence|reflexivity].
  - split; [reflexivity|]. split; [intros []; reflexivity|]. reflexivity.
Qed.

(** *** Which tab opens the sockets *)




End ProviderMoreFacts.

(* ================================================================== *)
(** ** Facts: sorting with a comparator that subtracts two instants *)

Module SortFacts.
Import JsSort.

Section Sorted.
Context {A : Type}.
Variable compareFn : A -> A -> Z.
Variable key : A -> Z.

Local Abbreviation newerFirst := (fun a b : A => key b <= key a).

Lemma insertBy_perm (x : A) (l : list A) :
  Permutation (x :: l) (insertBy compareFn x l).
Proof.
  induction l as [|e rest IH]; cbn [insertBy]; [reflexivity|].
  destruct (compareFn x e <=? 0); [reflexivity|].
  rewrite perm_swap. apply perm_skip, IH.
Qed.

Lemma sortBy_perm (l : list A) : Permutation l (sortBy compareFn l).
Proof.
  induction l as [|x l IH]; cbn [sortBy fold_right]; [reflexivity|].
  rewrite <- insertBy_perm. apply perm_skip, IH.
Qed.

Lemma insertBy_sorted (x : A) (l : list A) :
  (forall e, In e l -> compareFn x e = key e - key x) ->
  StronglySorted newerFirst l ->
  StronglySorted newerFirst (insertBy compareFn x l).
Proof.
  induction l as [|e rest IH]; intros Hc Hs; cbn [insertBy].
  - constructor; constructor.
  - inversion Hs as [|? ? Hrest Hall]; subst.
    pose proof (Hc e (or_introl eq_refl)) as He.
    destruct (Z.leb_spec (compareFn x e) 0) as [Hle|Hgt].
    + constructor; [assumption|].
      constructor; [lia|].
      rewrite Forall_forall in *. intros e' He'. specialize (Hall e' He'). lia.
    + constructor.
      * apply IH; [intros; apply Hc; right; assumption|assumption].
      * apply (Permutation_Forall (insertBy_perm x rest)).
        constructor; [lia|assumption].
Qed.

Lemma sortBy_sorted (l : list A) :
  (forall a b, In a l -> In b l -> compareFn a b = key b - key a) ->
  StronglySorted newerFirst (sortBy compareFn l).
Proof.
  induction l as [|x l IH]; intros Hc; cbn [sortBy fold_right].
  - constructor.
  - apply insertBy_sorted.
    + intros e He. apply Hc; [left; reflexivity|right].
      apply (Permutation_in _ (Permutation_sym (sortBy_perm l))), He.
    + apply IH. intros a b Ha Hb. apply Hc; right; assumption.
Qed.

Lemma sorted_app (l1 l2 : list A) :
  StronglySorted newerFirst (l1 ++ l2) ->
  StronglySorted newerFirst l1 /\
  forall a b, In a l1 -> In b l2 -> key b <= key a.
Proof.
  induction l1 as [|x l1 IH]; cbn [app]; intros Hs.
  - split; [constructor|intros a b []].
  - inversion Hs as [|? ? Hrest Hall]; subst.
    destruct (IH Hrest) as [Hs1 Hcross].
    rewrite Forall_app in Hall. destruct Hall as [H1 H2].
    split; [constructor; assumption|].
    intros a b [<-|Ha] Hb.
    + rewrite Forall_forall in H2. apply H2, Hb.
    + apply Hcross; assumption.
Qed.

End Sorted.

Lemma sortEvents_sortBy (dateParse : string -> option Z)
  (l : list KmaTable.KmaEarthquake) :
  KmaTable.sortEvents dateParse l
  = sortBy (KmaTable.byTimeDesc dateParse) l.
Proof.
  induction l as [|x l IH]; [reflexivity|].
  cbn [KmaTable.sortEvents sortBy fold_right].
  fold (KmaTable.sortEvents dateParse l). fold (sortBy (KmaTable.byTimeDesc dateParse) l).
  rewrite IH. generalize (sortBy (KmaTable.byTimeDesc dateParse) l) as s.
  induction s as [|e s IHs]; [reflexivity|].
  cbn [KmaTable.insertSorted insertBy]. rewrite IHs. reflexivity.
Qed.

End SortFacts.

(* ================================================================== *)
(** ** Facts: the lists and the pinned display of the Home page *)

Module HomeMoreFacts.
Import HomeMore.

(** *** One entry per time *)

Local Abbreviation setEntry :=
  (fun (m : JsMap) (kv : string * Earthquake) => mapSet (fst kv) (snd kv) m).

Local Abbreviation findKey :=
  (fun (k : string) (m : JsMap) => find (fun kv => String.eqb (fst kv) k) m).

Local Abbreviation addKey :=
  (fun (ks : list string) (k : string) =>
     if in_dec string_dec k ks then ks else (ks ++ [k])%list).

Lemma keys_mapSet k v (m : JsMap) :
  map fst (mapSet k v m) = addKey (map fst m) k.
Proof.
  induction m as [|[k' v'] m IH]; cbn [mapSet map fst].
  - destruct (in_dec string_dec k []) as [[]|_]. reflexivity.
  - destruct (String.eqb_spec k' k) as [->|Hne]; cbn [map fst].
    + destruct (in_dec string_dec k (k :: map fst m)) as [_|Hn];
        [reflexivity|exfalso; apply Hn; left; reflexivity].
    + rewrite IH.
      destruct (in_dec string_dec k (map fst m)) as [Hin|Hn];
        destruct (in_dec string_dec k (k' :: map fst m)) as [Hin'|Hn'];
        try reflexivity.
      * exfalso. apply Hn'. right. assumption.
      * destruct Hin' as [->|Hin']; contradiction.
Qed.

Lemma keys_fold (entries : list (string * Earthquake)) (m : JsMap) :
  map fst (fold_left setEntry entries m)
  = fold_left addKey (map fst entries) (map fst m).
Proof.
  revert m. induction entries as [|kv entries IH]; intros m; [reflexivity|].
  cbn [fold_left map]. rewrite IH, keys_mapSet. reflexivity.
Qed.

Lemma keys_first_seen (ks : list string) :
  fold_left addKey ks [] = rev (nodup string_dec (rev ks)).
Proof.
  induction ks as [|k ks IH] using rev_ind; [reflexivity|].
  rewrite fold_left_app, rev_app_distr. cbn [fold_left rev app nodup].
  rewrite IH.
  destruct (in_dec string_dec k (rev (nodup string_dec (rev ks)))) as [Hin|Hn];
    destruct (in_dec string_dec k (rev ks)) as [Hin'|Hn'];
    try reflexivity.
  - exfalso. apply Hn'. apply in_rev in Hin. apply nodup_In in Hin. assumption.
  - exfalso. apply Hn. apply -> in_rev. apply nodup_In. assumption.
Qed.

Lemma find_app {A} (p : A -> bool) (l1 l2 : list A) :
  find p (l1 ++ l2)
  = match find p l1 with Some x => Some x | None => find p l2 end.
Proof.
  induction l1 as [|x l1 IH]; cbn [app find]; [reflexivity|].
  destruct (p x); [reflexivity|exact IH].
Qed.

Lemma find_mapSet k' k v (m : JsMap) :
  findKey k' (mapSet k v m)
  = if String.eqb k k' then Some (k, v) else findKey k' m.
Proof.
  induction m as [|[k0 v0] m IH]; cbn [mapSet find fst].
  - destruct (String.eqb k k'); reflexivity.
  - destruct (String.eqb_spec k0 k) as [->|Hne]; cbn [find fst].
    + destruct (String.eqb k k'); reflexivity.
    + rewrite IH. destruct (String.eqb_spec k0 k') as [->|Hne'].
      * destruct (String.eqb_spec k k'); [congruence|reflexivity].
      * reflexivity.
Qed.

Lemma find_fold k (entries : list (string * Earthquake)) (m : JsMap) :
  findKey k (fold_left setEntry entries m)
  = match findKey k (rev entries) with
    | Some kv => Some kv
    | None => findKey k m
    end.
Proof.
  revert m. induction entries as [|[k0 v0] entries IH]; intros m; [reflexivity|].
  cbn [fold_left rev fst snd]. rewrite IH, find_app, find_mapSet.
  destruct (findKey k (rev entries)); [reflexivity|].
  cbn [find fst]. destruct (String.eqb k0 k); reflexivity.
Qed.

Lemma in_find_unique k v (m : JsMap) :
  NoDup (map fst m) -> In (k, v) m -> findKey k m = Some (k, v).
Proof.
  induction m as [|[k0 v0] m IH]; intros Hnd Hin; [destruct Hin|].
  cbn [map fst] in Hnd. inversion Hnd as [|? ? Hnotin Hnd']; subst.
  cbn [find fst]. destruct Hin as [Heq|Hin].
  - inversion Heq; subst. rewrite String.eqb_refl. reflexivity.
  - destruct (String.eqb_spec k0 k) as [->|Hne].
    + exfalso. apply Hnotin. apply (in_map fst) in Hin. exact Hin.
    + apply IH; assumption.
Qed.

Lemma find_entries t (l : list Earthquake) :
  findKey t (map (fun item => (time item, item)) l)
  = option_map (fun item => (time item, item))
      (find (fun x => String.eqb (time x) t) l).
Proof.
  induction l as [|x l IH]; cbn [map find fst option_map]; [reflexivity|].
  destruct (String.eqb (time x) t); [reflexivity|exact IH].
Qed.

Lemma keys_newMap (combined : list Earthquake) :
  map fst (newMap (map (fun item => (time item, item)) combined))
  = rev (nodup string_dec (rev (map time combined))).
Proof.
  unfold newMap. rewrite keys_fold, map_map. cbn [map fst].
  apply keys_first_seen.
Qed.

Lemma NoDup_firstn {A} n (l : list A) : NoDup l -> NoDup (firstn n l).
Proof.
  intros H. rewrite <- (firstn_skipn n l) in H.
  apply NoDup_app_remove_r in H. exact H.
Qed.

Lemma in_uniqueEarthquakes x (combined : list Earthquake) :
  In x (uniqueEarthquakes combined) ->
  lastWith (time x) combined = Some x.
Proof.
  unfold uniqueEarthquakes. intros Hin.
  apply in_map_iff in Hin. destruct Hin as [[k v] [Hv Hin]]. cbn [snd] in Hv. subst v.
  pose proof (keys_newMap combined) as Hkeys.
  assert (Hnd : NoDup (map fst (newMap (map (fun item => (time item, item)) combined)))).
  { rewrite Hkeys. apply NoDup_rev, NoDup_nodup. }
  pose proof (in_find_unique _ _ _ Hnd Hin) as Hfind.
  unfold newMap in Hfind. rewrite find_fold in Hfind. cbn [find] in Hfind.
  rewrite <- map_rev, find_entries in Hfind.
  unfold lastWith.
  destruct (find (fun x0 => String.eqb (time x0) k) (rev combined)) as [y|] eqn:Hy;
    cbn [option_map] in Hfind; [|discriminate].
  inversion Hfind; subst. exact Hy.
Qed.

(** The list of all earthquakes has one entry per time; the times are
    those of the new entries followed by the stored ones, in the order of
    their first appearance, cut to 100; the entry kept for a time is the
    last one with that time, so where a new entry and a stored one have
    the same time the stored one stays. *)
Theorem merge_one_entry_per_time (newEarthquakes prevEarthquakes : list Earthquake) :
  let combined := (newEarthquakes ++ prevEarthquakes)%list in
  let merged := mergeAllEarthquakes newEarthquakes prevEarthquakes in
  map time merged
  = firstn 100 (rev (nodup string_dec (rev (map time combined)))) /\
  NoDup (map time merged) /\
  (length merged <= 100)%nat /\
  (forall x, In x merged -> lastWith (time x) combined = Some x) /\
  (forall x p, In x merged -> In p prevEarthquakes -> time p = time x ->
     In x prevEarthquakes).
Proof.
  intros combined merged.
  assert (Htimes : map time (uniqueEarthquakes combined)
                   = rev (nodup string_dec (rev (map time combined)))).
  { rewrite <- keys_newMap. unfold uniqueEarthquakes.
    rewrite map_map.
    assert (Hk : forall m : JsMap,
               (forall kv, In kv m -> fst kv = time (snd kv)) ->
               map (fun kv => time (snd kv)) m = map fst m).
    { intros m Hm. apply map_ext_in. intros kv Hkv. symmetry. apply Hm, Hkv. }
    apply Hk. intros [k v] Hin. cbn [fst snd].
    assert (Hnd : NoDup (map fst (newMap (map (fun item => (time item, item)) combined)))).
    { rewrite keys_newMap. apply NoDup_rev, NoDup_nodup. }
    pose proof (in_find_unique _ _ _ Hnd Hin) as Hfind.
    unfold newMap in Hfind. rewrite find_fold in Hfind. cbn [find] in Hfind.
    rewrite <- map_rev, find_entries in Hfind.
    destruct (find (fun x0 => String.eqb (time x0) k) (rev combined)) as [y|];
      cbn [option_map] in Hfind; [|discriminate].
    inversion Hfind; subst. reflexivity. }
  assert (Hlast : forall x, In x merged -> lastWith (time x) combined = Some x).
  { intros x Hx. apply in_uniqueEarthquakes.
    apply (StoreFacts.in_firstn x 100). exact Hx. }
  split; [|split; [|split; [|split]]].
  - unfold merged, mergeAllEarthquakes. cbv zeta.
    rewrite <- firstn_map. fold combined. rewrite Htimes. reflexivity.
  - unfold merged, mergeAllEarthquakes. cbv zeta. fold combined.
    rewrite <- firstn_map, Htimes. apply NoDup_firstn, NoDup_rev, NoDup_nodup.
  - unfold merged, mergeAllEarthquakes. cbv zeta.
    rewrite length_firstn. lia.
  - exact Hlast.
  - intros x p Hx Hp Ht. specialize (Hlast x Hx).
    unfold lastWith, combined in Hlast. rewrite rev_app_distr, find_app in Hlast.
    destruct (find (fun x0 => String.eqb (time x0) (time x)) (rev prevEarthquakes))
      as [y|] eqn:Hy.
    + inversion Hlast; subst. apply find_some in Hy. destruct Hy as [Hy _].
      apply in_rev in Hy. exact Hy.
    + exfalso. apply in_rev in Hp.
      pose proof (find_none _ _ Hy p Hp) as Hn. cbn beta in Hn.
      rewrite Ht, String.eqb_refl in Hn. discriminate.
Qed.

(** *** The recent list *)

Lemma byTimeDesc_getTime dateParse (a b : Earthquake) :
  dateParse (time a) <> None -> dateParse (time b) <> None ->
  byTimeDesc dateParse a b
  = JsSort.getTime dateParse (time b) - JsSort.getTime dateParse (time a).
Proof.
  unfold byTimeDesc, JsSort.getTime. intros Ha Hb.
  destruct (dateParse (time b)); [|contradiction].
  destruct (dateParse (time a)); [|contradiction]. reflexivity.
Qed.

(** Where every time parses, the recent list holds the 30 newest entries
    of the two lists together, newest first: it is sorted by decreasing
    instant, and no entry left out is newer than one that is shown. *)
Theorem recent_list_newest_first (dateParse : string -> option Z)
  (allEarthquakes kmaEarthquakes : list Earthquake) :
  (forall e, In e (allEarthquakes ++ kmaEarthquakes)%list ->
             dateParse (time e) <> None) ->
  let instant := fun e => JsSort.getTime dateParse (time e) in
  let recent := recentEarthquakes dateParse allEarthquakes kmaEarthquakes in
  StronglySorted (fun a b => instant b <= instant a) recent /\
  length recent = Nat.min 30 (length allEarthquakes + length kmaEarthquakes) /\
  exists leftOut,
    Permutation (allEarthquakes ++ kmaEarthquakes)%list (recent ++ leftOut)%list /\
    forall a b, In a recent -> In b leftOut -> instant b <= instant a.
Proof.
  intros Hparse instant recent.
  set (l := (allEarthquakes ++ kmaEarthquakes)%list) in *.
  set (sorted := JsSort.sortBy (byTimeDesc dateParse) l).
  assert (Hs : StronglySorted (fun a b => instant b <= instant a) sorted).
  { apply (SortFacts.sortBy_sorted (byTimeDesc dateParse) instant).
    intros a b Ha Hb. apply byTimeDesc_getTime; apply Hparse; assumption. }
  assert (Hsplit : sorted = (recent ++ skipn 30 sorted)%list).
  { unfold recent, recentEarthquakes. fold l. fold sorted.
    symmetry. apply firstn_skipn. }
  rewrite Hsplit in Hs.
  destruct (SortFacts.sorted_app instant _ _ Hs) as [Hs1 Hcross].
  split; [exact Hs1|]. split.
  - unfold recent, recentEarthquakes. fold l. fold sorted.
    rewrite length_firstn. unfold sorted.
    rewrite <- (Permutation_length (SortFacts.sortBy_perm (byTimeDesc dateParse) l)).
    unfold l. rewrite length_app. reflexivity.
  - exists (skipn 30 sorted). split; [|exact Hcross].
    rewrite <- Hsplit. apply SortFacts.sortBy_perm.
Qed.

Lemma recent_list_newest_first_witness :
  let dateParse := fun s => Some (Z.of_nat (String.length s)) in
  let entry := fun t => mkEarthquake t "" 0 0 0 None None [] None None in
  let recent :=
    recentEarthquakes dateParse [entry "a"; entry "bbb"] [entry "cc"] in
  map time recent = ["bbb"; "cc"; "a"] /\
  StronglySorted
    (fun a b => JsSort.getTime dateParse (time b)
                <= JsSort.getTime dateParse (time a)) recent.
Proof.
  cbv zeta. split; [reflexivity|].
  refine (proj1 (recent_list_newest_first
                   (fun s => Some (Z.of_nat (String.length s)))
                   [mkEarthquake "a" "" 0 0 0 None None [] None None;
                    mkEarthquake "bbb" "" 0 0 0 None None [] None None]
                   [mkEarthquake "cc" "" 0 0 0 None None [] None None] _)).
  intros e _. discriminate.
Defined.

(** *** The pinned display *)

Lemma displayRun_app st es1 es2 :
  displayRun st (es1 ++ es2) = displayRun (displayRun st es1) es2.
Proof. apply fold_left_app. Qed.

Lemma ticks_cons e es :
  ticks (e :: es) = (if isTick e then 1 else 0) + ticks es.
Proof.
  unfold ticks. cbn [filter]. destruct (isTick e); cbn [length]; lia.
Qed.

Lemma ticks_nonneg es : 0 <= ticks es.
Proof. unfold ticks. lia. Qed.

(** While a temporary display with [r] seconds left is active, events
    other than clicks leave it active as long as fewer than [r] of them
    are countdown firings. *)
Lemma countdown_runs (es : list DisplayEvent) : forall st,
  forallb (fun e => negb (isClick e)) es = true ->
  isTemporaryDisplay st = true ->
  ticks es < remainingTime st ->
  let st' := displayRun st es in
  isTemporaryDisplay st' = true /\
  remainingTime st' = remainingTime st - ticks es /\
  displaySessionId st' = displaySessionId st /\
  (inFlight st = [] ->
   inFlight st' = [] /\ displayedEarthquakeData st' = displayedEarthquakeData st).
Proof.
  induction es as [|e es IH]; intros st Hnc Htemp Hticks; cbv zeta.
  - cbn [displayRun fold_left]. unfold ticks. cbn [filter length Z.of_nat].
    split; [exact Htemp|]. split; [lia|]. split; [reflexivity|].
    intros Hnil. split; [exact Hnil|reflexivity].
  - cbn [forallb] in Hnc. apply andb_prop in Hnc. destruct Hnc as [He Hnc].
    rewrite ticks_cons in Hticks |- *.
    pose proof (ticks_nonneg es) as Hnn.
    cbn [displayRun fold_left]. fold (displayRun (displayStep st e) es).
    assert (Hstep :
      isTemporaryDisplay (displayStep st e) = true /\
      remainingTime (displayStep st e)
      = remainingTime st - (if isTick e then 1 else 0) /\
      displaySessionId (displayStep st e) = displaySessionId st /\
      (inFlight st = [] ->
       inFlight (displayStep st e) = [] /\
       displayedEarthquakeData (displayStep st e) = displayedEarthquakeData st)).
    { destruct e as [q|latest tsu|latest tsu|i|init latest];
        cbn [displayStep isTick isClick negb] in *.
      - discriminate.
      - unfold tick. rewrite Htemp.
        destruct (Z.leb_spec (remainingTime st) 1); [lia|].
        cbn [isTemporaryDisplay remainingTime displaySessionId inFlight
             displayedEarthquakeData].
        split; [reflexivity|]. split; [reflexivity|]. split; [reflexivity|].
        intros Hnil. split; [exact Hnil|reflexivity].
      - unfold latestChanged. rewrite Htemp.
        split; [exact Htemp|]. split; [lia|]. split; [reflexivity|].
        intros Hnil. split; [exact Hnil|reflexivity].
      - unfold resumes.
        destruct (nth_error (inFlight st) i) as [base|] eqn:Hn.
        + cbn [isTemporaryDisplay remainingTime displaySessionId inFlight
               displayedEarthquakeData].
          split; [exact Htemp|]. split; [lia|]. split; [reflexivity|].
          intros Hnil. rewrite Hnil in Hn. destruct i; discriminate.
        + split; [exact Htemp|]. split; [lia|]. split; [reflexivity|].
          intros Hnil. split; [exact Hnil|reflexivity].
      - unfold fallback. rewrite Htemp.
        split; [exact Htemp|]. split; [lia|]. split; [reflexivity|].
        intros Hnil. split; [exact Hnil|reflexivity]. }
    destruct Hstep as (Ht & Hr & Hs & Hf).
    specialize (IH (displayStep st e) Hnc Ht).
    cbv zeta in IH. rewrite Hr in IH.
    destruct IH as (Ht' & Hr' & Hs' & Hf'); [lia|].
    split; [exact Ht'|]. split; [rewrite Hr'; lia|].
    split; [rewrite Hs'; exact Hs|].
    intros Hnil. destruct (Hf Hnil) as [Hnil' Hd].
    destruct (Hf' Hnil') as [Hnil'' Hd']. split; [exact Hnil''|].
    rewrite Hd'. exact Hd.
Qed.

(** A click pins the clicked entry for fifteen firings of the countdown,
    whatever else happens in between short of another click: before the
    fifteenth the temporary display is active with 15 minus the firings
    so far left, and with no update in flight at the click the entry
    stays displayed; the fifteenth ends the temporary display and shows
    the record made of the latest record it has captured. *)
Theorem click_pins_for_fifteen_ticks (st : Display) (earthquake : Earthquake)
  (es : list DisplayEvent) :
  forallb (fun e => negb (isClick e)) es = true ->
  let st' := displayRun st (Click earthquake :: es) in
  (ticks es < 15 ->
   isTemporaryDisplay st' = true /\
   remainingTime st' = 15 - ticks es /\
   displaySessionId st' = displaySessionId st + 1 /\
   (inFlight st = [] -> displayedEarthquakeData st' = FromClick earthquake)) /\
  (ticks es = 14 ->
   forall latest tsunamiData,
     let st'' := displayStep st' (Tick latest tsunamiData) in
     isTemporaryDisplay st'' = false /\
     remainingTime st'' = 0 /\
     displayedEarthquakeData st''
     = FromLatest (Home.transformData tsunamiData latest)).
Proof.
  intros Hnc st'.
  assert (Hrun : ticks es < 15 ->
            isTemporaryDisplay st' = true /\
            remainingTime st' = 15 - ticks es /\
            displaySessionId st' = displaySessionId st + 1 /\
            (inFlight st = [] ->
             displayedEarthquakeData st' = FromClick earthquake)).
  { intros Hlt.
    pose proof (countdown_runs es (handleEarthquakeClick earthquake st) Hnc
                  eq_refl Hlt) as H.
    cbv zeta in H. destruct H as (Ht & Hr & Hs & Hf).
    unfold st'. cbn [displayRun fold_left displayStep].
    fold (displayRun (handleEarthquakeClick earthquake st) es).
    repeat split; auto.
    intros Hnil. apply Hf. exact Hnil. }
  split; [exact Hrun|].
  intros H14 latest tsunamiData st''.
  destruct Hrun as (Ht & Hr & _); [lia|].
  unfold st''. cbn [displayStep]. unfold tick. rewrite Ht, Hr, H14.
  cbn. repeat split.
Qed.

Lemma click_pins_for_fifteen_ticks_witness :
  let entry := mkEarthquake "t" "here" 10 4 3 None None [] None (Some KMA) in
  let st' :=
    displayRun (initialDisplay None None)
      [Click entry; Tick None None; LatestChanged None None; Tick None None] in
  isTemporaryDisplay st' = true /\
  remainingTime st' = 13 /\
  displayedEarthquakeData st' = FromClick entry.
Proof.
  cbv zeta.
  destruct (click_pins_for_fifteen_ticks (initialDisplay None None)
              (mkEarthquake "t" "here" 10 4 3 None None [] None (Some KMA))
              [Tick None None; LatestChanged None None; Tick None None]
              eq_refl) as [H _].
  destruct H as (Ht & Hr & _ & Hd); [vm_compute; reflexivity|].
  exact (conj Ht (conj Hr (Hd eq_refl))).
Defined.

(** The pin does not hold against an update that was already in flight:
    when the latest record has points, its update waits for their
    coordinates, and if a click lands before it resumes, the update then
    replaces the clicked entry while the temporary display and its
    countdown go on. *)
Theorem update_in_flight_replaces_pin (st : Display) (earthquake : Earthquake)
  (latest : option P2PQuake.EarthquakeData)
  (tsunamiData : option P2PQuake.TsunamiData) :
  isTemporaryDisplay st = false ->
  inFlight st = [] ->
  pointsOf latest <> [] ->
  let st' :=
    displayRun st [LatestChanged latest tsunamiData; Click earthquake; Resumes 0] in
  displayedEarthquakeData st'
  = FromLatest (Home.transformData tsunamiData latest) /\
  isTemporaryDisplay st' = true /\
  remainingTime st' = 15.
Proof.
  intros Htemp Hnil Hpts st'. unfold st'.
  cbn [displayRun fold_left displayStep].
  unfold latestChanged. rewrite Htemp.
  destruct (pointsOf latest) as [|p ps]; [contradiction|].
  unfold handleEarthquakeClick, resumes. cbn. rewrite Hnil. cbn.
  repeat split.
Qed.

Lemma update_in_flight_replaces_pin_witness :
  let latest :=
    Some (P2PQuake.mkEarthquakeData 551 (Some 0)
            (P2PQuake.mkEarthquake 40 "None"
               (P2PQuake.mkHypocenter "here" 35 139 10 5))
            "" [P2PQuake.mkPoint "a" "b" 40] false) in
  let entry := mkEarthquake "t" "there" 10 4 3 None None [] None (Some KMA) in
  let st' :=
    displayRun (initialDisplay None None)
      [LatestChanged latest None; Click entry; Resumes 0] in
  displayedEarthquakeData st' = FromLatest (Home.transformData None latest) /\
  isTemporaryDisplay st' = true.
Proof.
  cbv zeta.
  assert (Hpts : pointsOf
            (Some (P2PQuake.mkEarthquakeData 551 (Some 0)
                     (P2PQuake.mkEarthquake 40 "None"
                        (P2PQuake.mkHypocenter "here" 35 139 10 5))
                     "" [P2PQuake.mkPoint "a" "b" 40] false)) <> [])
    by discriminate.
  pose proof (update_in_flight_replaces_pin (initialDisplay None None)
                (mkEarthquake "t" "there" 10 4 3 None None [] None (Some KMA))
                _ None eq_refl eq_refl Hpts) as H.
  exact (conj (proj1 H) (proj1 (proj2 H))).
Defined.

(** *** What the side bar shows after a tsunami message is cancelled *)

(** A tsunami message that is not cancelled, followed by its cancellation:
    the placeholder record made for the first stays the latest earthquake
    record, so the page goes on showing a magnitude 3 earthquake 10 km
    deep under the first area's name, now with no tsunami level. *)
Theorem cancelled_tsunami_leaves_placeholder (tz : JSDate.TimeZone)
  (now1 now2 : Z)
  (s : Provider.Store) (tsu tsu' : P2PQuake.TsunamiData) :
  P2PQuake.cancelled tsu = false ->
  P2PQuake.cancelled tsu' = true ->
  let s1 := Provider.handleOne tz now1 s (P2PQuake.Code552 tsu) in
  let s2 := Provider.handleOne tz now2 s1 (P2PQuake.Code552 tsu') in
  let latest := latestEarthquakeData (Provider.earthquakeData s2) in
  let shown := Home.transformData (Provider.tsunamiData s2) latest in
  latest = Some (Provider.syntheticQuake now1 tsu) /\
  Provider.tsunamiData s2 = Some tsu' /\
  Home.tsunamiWarning shown = Home.none /\
  Home.sidebarTsunamiWarning (Provider.tsunamiData s2) = Home.none /\
  Home.intensity shown = 0 /\
  Home.magnitude shown = 3%Q /\
  Home.depth shown = 10 /\
  Home.location shown
  = P2PQuake.hypo_name
      (P2PQuake.hypocenter (P2PQuake.earthquake (Provider.syntheticQuake now1 tsu))).
Proof.
  intros Hc Hc' s1 s2 latest shown.
  assert (Hq : Provider.earthquakeData s2
               = firstn 50 (Provider.syntheticQuake now1 tsu
                            :: filter (Provider.notBefore (Provider.twoDaysAgo tz now1))
                                 (Provider.earthquakeData s))).
  { unfold s2, s1, Provider.handleOne. rewrite Hc, Hc'. reflexivity. }
  assert (Ht : Provider.tsunamiData s2 = Some tsu').
  { unfold s2, Provider.handleOne. rewrite Hc'. reflexivity. }
  assert (Hl : latest = Some (Provider.syntheticQuake now1 tsu)).
  { unfold latest, latestEarthquakeData. rewrite Hq. reflexivity. }
  unfold shown. rewrite Hl, Ht.
  unfold Home.transformData, Home.transformTsunamiWarning,
    Home.sidebarTsunamiWarning.
  rewrite Hc'. rewrite !andb_false_r.
  cbn. repeat split.
Qed.

Lemma cancelled_tsunami_leaves_placeholder_witness :
  let tsu := P2PQuake.mkTsunamiData 552 (Some 0) false
               [P2PQuake.mkTsunamiArea "Coast" "Warning"] in
  let tsu' := P2PQuake.mkTsunamiData 552 (Some 1) true [] in
  let s2 :=
    Provider.handleOne JSDate.utc 2000
      (Provider.handleOne JSDate.utc 1000 Provider.initialStore (P2PQuake.Code552 tsu))
      (P2PQuake.Code552 tsu') in
  latestEarthquakeData (Provider.earthquakeData s2)
  = Some (Provider.syntheticQuake 1000 tsu).
Proof.
  cbv zeta.
  exact (proj1 (cancelled_tsunami_leaves_placeholder JSDate.utc 1000 2000
                  Provider.initialStore
                  (P2PQuake.mkTsunamiData 552 (Some 0) false
                     [P2PQuake.mkTsunamiArea "Coast" "Warning"])
                  (P2PQuake.mkTsunamiData 552 (Some 1) true [])
                  eq_refl eq_refl)).
Defined.

End HomeMoreFacts.

(* ================================================================== *)
(** ** Facts: the timestamp pattern and the order of the KMA events *)

Module KmaMoreFacts.
Import KmaTable KmaShape.

Lemma list_of_append (a b : string) :
  list_ascii_of_string (a ++ b)
  = (list_ascii_of_string a ++ list_ascii_of_string b)%list.
Proof.
  induction a as [|c a IH]; cbn; [reflexivity|]. rewrite IH. reflexivity.
Qed.

Lemma string_of_app (l1 l2 : list ascii) :
  string_of_list_ascii (l1 ++ l2)
  = string_of_list_ascii l1 ++ string_of_list_ascii l2.
Proof.
  induction l1 as [|c l1 IH]; cbn; [reflexivity|]. rewrite IH. reflexivity.
Qed.

Lemma digits_sound n : forall l ds rest,
  digits n l = Some (ds, rest) ->
  digitString n ds = true /\ l = (list_ascii_of_string ds ++ rest)%list.
Proof.
  induction n as [|n IH]; intros l ds rest H; cbn [digits] in H.
  - inversion H; subst. split; reflexivity.
  - destruct l as [|c l]; [discriminate|].
    destruct (isDigit c) eqn:Hc; [|discriminate].
    destruct (digits n l) as [[ds' rest']|] eqn:Hd; [|discriminate].
    inversion H; subst. destruct (IH _ _ _ Hd) as [Hs Hl].
    unfold digitString in *. apply andb_prop in Hs. destruct Hs as [Hlen Hall].
    cbn [String.length list_ascii_of_string forallb app].
    rewrite Hc, Hall. cbn [Nat.eqb andb]. rewrite Hlen.
    split; [reflexivity|]. rewrite Hl. reflexivity.
Qed.

Lemma digits_complete n : forall ds rest,
  digitString n ds = true ->
  digits n (list_ascii_of_string ds ++ rest) = Some (ds, rest).
Proof.
  induction n as [|n IH]; intros ds rest H; unfold digitString in H;
    apply andb_prop in H; destruct H as [Hlen Hall].
  - destruct ds; [reflexivity|discriminate].
  - destruct ds as [|c ds]; [discriminate|].
    cbn [String.length Nat.eqb] in Hlen.
    cbn [list_ascii_of_string forallb] in Hall.
    apply andb_prop in Hall. destruct Hall as [Hc Hall].
    cbn [list_ascii_of_string app digits]. rewrite Hc.
    rewrite IH; [reflexivity|].
    unfold digitString. rewrite Hlen, Hall. reflexivity.
Qed.

Lemma lit_iff c l rest : lit c l = Some rest <-> l = c :: rest.
Proof.
  unfold lit. destruct l as [|c' l].
  - split; discriminate.
  - destruct (Ascii.eqb_spec c' c) as [->|Hne].
    + split; intros H; inversion H; reflexivity.
    + split; intros H; inversion H; congruence.
Qed.

Lemma whitespaceChars_nonempty (w : list ascii) :
  In w whitespaceChars -> (1 <= length w)%nat.
Proof.
  unfold whitespaceChars. cbn [In]. intros H.
  repeat (destruct H as [<-|H]; [cbn [length]; lia|]). destruct H.
Qed.

(** No white-space character starts with another: at the head of a text
    that starts with one, that one is found. *)
Lemma stripAny_whitespace (w tail : list ascii) :
  In w whitespaceChars ->
  stripAny whitespaceChars (w ++ tail) = Some tail.
Proof.
  unfold whitespaceChars at 1. cbn [In]. intros H.
  repeat (destruct H as [<-|H]; [reflexivity|]). destruct H.
Qed.

Lemma stripAny_digit (c : ascii) (rest : list ascii) :
  isDigit c = true -> stripAny whitespaceChars (c :: rest) = None.
Proof.
  intros Hc.
  destruct c as [[] [] [] [] [] [] [] []]; vm_compute in Hc;
    try discriminate Hc; reflexivity.
Qed.

Lemma length_concat_chars (ws : list (list ascii)) :
  Forall (fun w => In w whitespaceChars) ws ->
  (length ws <= length (concat ws))%nat.
Proof.
  intros H. induction H as [|w ws Hw _ IH]; [reflexivity|].
  cbn [concat length]. rewrite length_app.
  pose proof (whitespaceChars_nonempty w Hw). lia.
Qed.

Lemma dropAll_whitespace (ws : list (list ascii)) (c : ascii)
  (rest : list ascii) : forall fuel,
  Forall (fun w => In w whitespaceChars) ws ->
  isDigit c = true ->
  (length ws <= fuel)%nat ->
  dropAll whitespaceChars fuel (concat ws ++ c :: rest) = c :: rest.
Proof.
  induction ws as [|w ws IH]; intros fuel Hall Hc Hfuel.
  - cbn [concat app]. destruct fuel as [|fuel]; [reflexivity|].
    cbn [dropAll]. rewrite stripAny_digit by exact Hc. reflexivity.
  - inversion Hall as [|? ? Hw Hall']; subst.
    destruct fuel as [|fuel]; [cbn [length] in Hfuel; lia|].
    cbn [concat dropAll]. rewrite <- app_assoc.
    rewrite stripAny_whitespace by exact Hw.
    apply IH; [exact Hall'|exact Hc|cbn [length] in Hfuel; lia].
Qed.

Lemma spaces1_sound l rest :
  spaces1 l = Some rest ->
  exists ws, whitespaceString ws /\
             l = (list_ascii_of_string ws ++ rest)%list.
Proof.
  unfold spaces1, dropWhitespace.
  destruct (stripAny whitespaceChars l) as [l'|] eqn:Hs; [|discriminate].
  intros [= <-].
  destruct (KmaFacts.stripAny_sound _ _ _ Hs) as [w [Hw Hl]].
  destruct (KmaFacts.dropAll_split whitespaceChars (length l') l')
    as [ws [Hall Hl']].
  exists (string_of_list_ascii (concat (w :: ws))). split.
  - exists (w :: ws). split; [discriminate|].
    split; [constructor; assumption|].
    apply list_ascii_of_string_of_list_ascii.
  - rewrite list_ascii_of_string_of_list_ascii. cbn [concat].
    rewrite <- app_assoc, <- Hl'. exact Hl.
Qed.

Lemma spaces1_complete ws (c : ascii) (rest : list ascii) :
  whitespaceString ws -> isDigit c = true ->
  spaces1 (list_ascii_of_string ws ++ c :: rest) = Some (c :: rest).
Proof.
  intros (chars & Hne & Hall & Hws) Hc. rewrite Hws.
  destruct chars as [|w chars]; [contradiction|].
  inversion Hall as [|? ? Hw Hall']; subst.
  unfold spaces1, dropWhitespace. cbn [concat]. rewrite <- app_assoc.
  rewrite stripAny_whitespace by exact Hw.
  rewrite dropAll_whitespace; [reflexivity|exact Hall'|exact Hc|].
  rewrite length_app. pose proof (length_concat_chars chars Hall'). lia.
Qed.

Lemma digitString_head n ds :
  digitString (S n) ds = true ->
  exists c ds', ds = String c ds' /\ isDigit c = true.
Proof.
  unfold digitString. intros H. apply andb_prop in H. destruct H as [Hlen Hall].
  destruct ds as [|c ds]; [discriminate|].
  cbn [list_ascii_of_string forallb] in Hall.
  apply andb_prop in Hall. destruct Hall as [Hc _].
  exists c, ds. split; [reflexivity|exact Hc].
Qed.

Lemma string_of_list_inj (s : string) (l : list ascii) :
  list_ascii_of_string s = l -> s = string_of_list_ascii l.
Proof. intros <-. symmetry. apply string_of_list_ascii_of_string. Qed.

(** *** What [trim] removes *)

Lemma stripAny_complete (chars : list (list ascii)) (w rest : list ascii) :
  In w chars -> exists rest', stripAny chars (w ++ rest) = Some rest'.
Proof.
  induction chars as [|w0 chars IH]; intros Hin; [destruct Hin|].
  cbn [stripAny]. destruct (stripPrefix w0 (w ++ rest)) as [l'|] eqn:Hp.
  - exists l'. reflexivity.
  - destruct Hin as [->|Hin]; [|apply IH, Hin].
    assert (H : stripPrefix w (w ++ rest) = Some rest)
      by (apply KmaFacts.stripPrefix_iff; reflexivity).
    congruence.
Qed.

Lemma dropAll_done (chars : list (list ascii)) :
  (forall w, In w chars -> (1 <= length w)%nat) ->
  forall fuel l, (length l <= fuel)%nat ->
  stripAny chars (dropAll chars fuel l) = None.
Proof.
  intros Hne fuel. induction fuel as [|fuel IH]; intros l Hl; cbn [dropAll].
  - destruct l; [|cbn [length] in Hl; lia].
    destruct (stripAny chars []) as [l'|] eqn:Hs; [|reflexivity].
    destruct (KmaFacts.stripAny_sound _ _ _ Hs) as [w [Hw Hl']].
    pose proof (Hne w Hw). destruct w; [cbn [length] in *; lia|discriminate].
  - destruct (stripAny chars l) as [l'|] eqn:Hs; [|exact Hs].
    apply IH. destruct (KmaFacts.stripAny_sound _ _ _ Hs) as [w [Hw ->]].
    pose proof (Hne w Hw). rewrite length_app in Hl. lia.
Qed.

Lemma rev_concat {A} (l : list (list A)) :
  rev (concat l) = concat (rev (map (@rev A) l)).
Proof.
  induction l as [|x l IH]; [reflexivity|].
  cbn [concat map rev]. rewrite rev_app_distr, IH, concat_app.
  cbn [concat]. rewrite app_nil_r. reflexivity.
Qed.

(** [trim] takes a sequence of white-space characters off each end, and
    what is left neither starts nor ends with one. *)
Lemma trim_spec (s : string) :
  exists pre post : list (list ascii),
    Forall (fun w => In w whitespaceChars) pre /\
    Forall (fun w => In w whitespaceChars) post /\
    list_ascii_of_string s
    = (concat pre ++ list_ascii_of_string (trim s) ++ concat post)%list /\
    forall w x, In w whitespaceChars ->
      list_ascii_of_string (trim s) <> (w ++ x)%list /\
      list_ascii_of_string (trim s) <> (x ++ w)%list.
Proof.
  unfold trim, trimChars, dropWhitespaceEnd, dropWhitespace.
  rewrite list_ascii_of_string_of_list_ascii.
  set (l := list_ascii_of_string s).
  set (m := dropAll whitespaceChars (length l) l).
  set (rchars := map (@rev ascii) whitespaceChars).
  set (d := dropAll rchars (length m) (rev m)).
  destruct (KmaFacts.dropAll_split whitespaceChars (length l) l)
    as [pre [Hpre Hl]]. fold m in Hl.
  destruct (KmaFacts.dropAll_split rchars (length m) (rev m))
    as [wsr [Hwsr Hm]]. fold d in Hm.
  assert (Hm' : m = (rev d ++ concat (rev (map (@rev ascii) wsr)))%list).
  { rewrite <- (rev_involutive m), Hm, rev_app_distr, rev_concat. reflexivity. }
  assert (Hrne : forall w, In w rchars -> (1 <= length w)%nat).
  { intros w Hw. apply in_map_iff in Hw. destruct Hw as [w' [<- Hw']].
    rewrite length_rev. apply whitespaceChars_nonempty, Hw'. }
  assert (Hstart : stripAny whitespaceChars m = None).
  { apply dropAll_done; [apply whitespaceChars_nonempty|reflexivity]. }
  assert (Hend : stripAny rchars d = None).
  { apply dropAll_done; [exact Hrne|rewrite length_rev; reflexivity]. }
  exists pre, (rev (map (@rev ascii) wsr)).
  split; [exact Hpre|]. split.
  { apply Forall_rev, Forall_map.
    eapply Forall_impl; [|exact Hwsr]. intros w Hw. cbn beta in Hw.
    apply in_map_iff in Hw. destruct Hw as [w' [<- Hw']].
    rewrite rev_involutive. exact Hw'. }
  split; [rewrite <- Hm'; exact Hl|].
  intros w x Hw. split; intros Heq.
  - rewrite Heq, <- app_assoc in Hm'.
    destruct (stripAny_complete whitespaceChars w
                (x ++ concat (rev (map (@rev ascii) wsr))) Hw) as [r Hr].
    rewrite <- Hm' in Hr. congruence.
  - apply (f_equal (@rev ascii)) in Heq.
    rewrite rev_involutive, rev_app_distr in Heq.
    assert (Hrw : In (rev w) rchars) by (apply in_map, Hw).
    destruct (stripAny_complete rchars (rev w) (rev x) Hrw) as [r Hr].
    rewrite <- Heq in Hr. congruence.
Qed.

Lemma kstText_list (m : KstMatch) (ws : string) :
  list_ascii_of_string (kstText m ws)
  = (list_ascii_of_string (y m) ++ "/"%char ::
     list_ascii_of_string (mo m) ++ "/"%char ::
     list_ascii_of_string (d m) ++
     list_ascii_of_string ws ++
     list_ascii_of_string (hh m) ++ ":"%char ::
     list_ascii_of_string (mm m) ++ ":"%char ::
     list_ascii_of_string (ss m) ++ [])%list.
Proof.
  unfold kstText. rewrite !list_of_append. cbn [list_ascii_of_string app].
  rewrite app_nil_r. reflexivity.
Qed.

Lemma matchKst_sound (s : string) (m : KstMatch) :
  matchKst s = Some m ->
  exists ws,
    whitespaceString ws /\ s = kstText m ws /\
    digitString 4 (y m) = true /\ digitString 2 (mo m) = true /\
    digitString 2 (d m) = true /\ digitString 2 (hh m) = true /\
    digitString 2 (mm m) = true /\ digitString 2 (ss m) = true.
Proof.
  unfold matchKst, bind. intros H.
  destruct (digits 4 (list_ascii_of_string s)) as [[y0 l0]|] eqn:E1; [|discriminate].
  destruct (lit "/" l0) as [l1|] eqn:E2; [|discriminate].
  destruct (digits 2 l1) as [[mo0 l2]|] eqn:E3; [|discriminate].
  destruct (lit "/" l2) as [l3|] eqn:E4; [|discriminate].
  destruct (digits 2 l3) as [[d0 l4]|] eqn:E5; [|discriminate].
  destruct (spaces1 l4) as [l5|] eqn:E6; [|discriminate].
  destruct (digits 2 l5) as [[hh0 l6]|] eqn:E7; [|discriminate].
  destruct (lit ":" l6) as [l7|] eqn:E8; [|discriminate].
  destruct (digits 2 l7) as [[mm0 l8]|] eqn:E9; [|discriminate].
  destruct (lit ":" l8) as [l9|] eqn:E10; [|discriminate].
  destruct (digits 2 l9) as [[ss0 l10]|] eqn:E11; [|discriminate].
  destruct l10; [|discriminate]. inversion H; subst m. clear H.
  apply digits_sound in E1, E3, E5, E7, E9, E11.
  apply lit_iff in E2, E4, E8, E10.
  apply spaces1_sound in E6. destruct E6 as [ws [Hws E6]].
  destruct E1 as [H1 E1], E3 as [H3 E3], E5 as [H5 E5], E7 as [H7 E7],
    E9 as [H9 E9], E11 as [H11 E11].
  exists ws. cbn [y mo d hh mm ss].
  split; [exact Hws|].
  split; [|repeat (split; [assumption|]); assumption].
  rewrite <- (string_of_list_ascii_of_string s).
  rewrite <- (string_of_list_ascii_of_string (kstText _ ws)).
  f_equal. rewrite kstText_list. cbn [y mo d hh mm ss].
  rewrite E1, E2, E3, E4, E5, E6, E7, E8, E9, E10, E11. reflexivity.
Qed.

Lemma matchKst_complete (m : KstMatch) (ws : string) :
  whitespaceString ws ->
  digitString 4 (y m) = true -> digitString 2 (mo m) = true ->
  digitString 2 (d m) = true -> digitString 2 (hh m) = true ->
  digitString 2 (mm m) = true -> digitString 2 (ss m) = true ->
  matchKst (kstText m ws) = Some m.
Proof.
  intros Hws H1 H2 H3 H4 H5 H6.
  unfold matchKst. rewrite kstText_list.
  rewrite (digits_complete 4 _ _ H1). cbn [bind lit].
  rewrite Ascii.eqb_refl. cbn [bind].
  rewrite (digits_complete 2 _ _ H2). cbn [bind lit].
  rewrite Ascii.eqb_refl. cbn [bind].
  rewrite (digits_complete 2 _ _ H3). cbn [bind].
  destruct (digitString_head _ _ H4) as [c [hh' [Ehh Hc]]].
  assert (Hsp : forall rest,
            spaces1 (list_ascii_of_string ws ++ list_ascii_of_string (hh m) ++ rest)
            = Some (list_ascii_of_string (hh m) ++ rest)%list).
  { intros rest. rewrite Ehh. cbn [list_ascii_of_string app].
    apply spaces1_complete; assumption. }
  rewrite Hsp. cbn [bind].
  rewrite (digits_complete 2 _ _ H4). cbn [bind lit].
  rewrite Ascii.eqb_refl. cbn [bind].
  rewrite (digits_complete 2 _ _ H5). cbn [bind lit].
  rewrite Ascii.eqb_refl. cbn [bind].
  rewrite (digits_complete 2 _ _ H6). cbn [bind].
  destruct m; reflexivity.
Qed.

Section WithRuntime.
Variable parseFloat : string -> option Q.
Variable dateParse : string -> option Z.
Variable toISOString : Z -> string.

(** A time cell yields a time exactly when, trimmed, it is four digits, a
    slash, two digits, a slash, two digits, white space, and two digits,
    a colon, two digits, a colon, two digits, and the runtime accepts the
    date made of these groups with the offset +09:00; the time is then
    the ISO text of that instant. Trimming takes the white-space
    characters off both ends of the cell, so that what is left neither
    starts nor ends with one; white space is that of ECMAScript, the
    no-break and the ideographic space included. *)
Theorem parseKstToIsoUtc_shape (input iso : string) :
  (parseKstToIsoUtc dateParse toISOString input = Some iso <->
   exists m ws kst,
     trim input = kstText m ws /\
     whitespaceString ws /\
     digitString 4 (y m) = true /\ digitString 2 (mo m) = true /\
     digitString 2 (d m) = true /\ digitString 2 (hh m) = true /\
     digitString 2 (mm m) = true /\ digitString 2 (ss m) = true /\
     dateParse (isoText m) = Some kst /\
     iso = toISOString kst) /\
  (exists pre post : list (list ascii),
     Forall (fun w => In w whitespaceChars) pre /\
     Forall (fun w => In w whitespaceChars) post /\
     list_ascii_of_string input
     = (concat pre ++ list_ascii_of_string (trim input) ++ concat post)%list /\
     forall w x, In w whitespaceChars ->
       list_ascii_of_string (trim input) <> (w ++ x)%list /\
       list_ascii_of_string (trim input) <> (x ++ w)%list) /\
  whitespaceString nbsp /\ whitespaceString " " /\
  whitespaceString (String "227" (String "128" (String "128" ""))).
Proof.
  split; [|split; [apply trim_spec|]].
  - unfold parseKstToIsoUtc. cbv zeta. split.
    + intros H. unfold bind in H.
      destruct (matchKst (trim input)) as [m|] eqn:Hm; [|discriminate].
      fold (isoText m) in H.
      destruct (dateParse (isoText m)) as [kst|] eqn:Hk; [|discriminate].
      inversion H; subst iso.
      destruct (matchKst_sound _ _ Hm)
        as (ws & Hws & Hs & H1 & H2 & H3 & H4 & H5 & H6).
      exists m, ws, kst. repeat (split; [assumption|]). reflexivity.
    + intros (m & ws & kst & Hs & Hws & H1 & H2 & H3 & H4 & H5 & H6 & Hk & ->).
      rewrite Hs, (matchKst_complete m ws) by assumption.
      cbn [bind]. fold (isoText m). rewrite Hk. reflexivity.
  - assert (Hone : forall w, In w whitespaceChars ->
              whitespaceString (string_of_list_ascii w)).
    { intros w Hw. exists [w]. split; [discriminate|].
      split; [constructor; [exact Hw|constructor]|].
      rewrite list_ascii_of_string_of_list_ascii. cbn [concat].
      symmetry. apply app_nil_r. }
    split; [|split].
    + apply (Hone ["194"%char; "160"%char]). unfold whitespaceChars.
      cbn [In]. do 6 right. left. reflexivity.
    + apply (Hone [" "%char]). unfold whitespaceChars.
      cbn [In]. do 5 right. left. reflexivity.
    + apply (Hone ["227"%char; "128"%char; "128"%char]).
      unfold whitespaceChars. cbn [In]. do 23 right. left. reflexivity.
Qed.

(** Where the time of every event parses, the events of the answer are
    those the rows gave, ordered from the most recent to the oldest. *)
Theorem kma_events_newest_first (rows : list Row) :
  (forall e, In e (rowLoop parseFloat dateParse toISOString rows) ->
             dateParse (time e) <> None) ->
  let data := handler parseFloat dateParse toISOString (Some rows) in
  Permutation (rowLoop parseFloat dateParse toISOString rows) data /\
  StronglySorted
    (fun a b => JsSort.getTime dateParse (time b)
                <= JsSort.getTime dateParse (time a)) data.
Proof.
  intros Hparse data. unfold data, handler.
  rewrite SortFacts.sortEvents_sortBy. split.
  - apply SortFacts.sortBy_perm.
  - apply (SortFacts.sortBy_sorted (byTimeDesc dateParse)
             (fun e => JsSort.getTime dateParse (time e))).
    intros a b Ha Hb. unfold byTimeDesc, JsSort.getTime.
    pose proof (Hparse a Ha). pose proof (Hparse b Hb).
    destruct (dateParse (time b)); [|contradiction].
    destruct (dateParse (time a)); [|contradiction]. reflexivity.
Qed.

End WithRuntime.

Lemma kma_events_newest_first_witness :
  let rows := [["1"; "2025/01/02 03:04:05"; "2.5"; "12"; "Ⅱ"; "36.10 N";
                "127.50 E"; "older"];
               ["2"; "2025/01/03 03:04:05"; "2.5"; "12"; "Ⅱ"; "36.10 N";
                "127.50 E"; "newer"]] in
  let data := handler toyParseFloat toyDateParse toyToISOString (Some rows) in
  map location (rowLoop toyParseFloat toyDateParse toyToISOString rows)
  = ["older"; "newer"] /\
  map location data = ["newer"; "older"] /\
  map time data = ["2025-01-02T18:04:05.000Z"; "2025-01-01T18:04:05.000Z"] /\
  Permutation (rowLoop toyParseFloat toyDateParse toyToISOString rows) data /\
  StronglySorted
    (fun a b => JsSort.getTime toyDateParse (time b)
                <= JsSort.getTime toyDateParse (time a)) data.
Proof.
  cbv zeta.
  split; [reflexivity|]. split; [reflexivity|]. split; [reflexivity|].
  refine (kma_events_newest_first toyParseFloat toyDateParse
            toyToISOString _ _).
  intros e He. vm_compute in He. destruct He as [<-|[<-|[]]];
    vm_compute; discriminate.
Defined.

(** A time cell with a no-break space, before the date or between date
    and time, parses like one with a space, and its row is kept. *)
Example no_break_space_is_white_space :
  parseKstToIsoUtc toyDateParse toyToISOString
    (nbsp ++ "2025/01/02" ++ nbsp ++ "03:04:05" ++ nbsp)
  = Some "2025-01-01T18:04:05.000Z" /\
  map time
    (handler toyParseFloat toyDateParse toyToISOString
       (Some [["1"; "2025/01/02" ++ nbsp ++ "03:04:05"; "2.5"; "12"; "";
               "36.10 N"; "127.50 E"; ""]]))
  = ["2025-01-01T18:04:05.000Z"].
Proof. split; reflexivity. Qed.

End KmaMoreFacts.

(* ================================================================== *)
(** ** Facts: the map's check of the proxy's answer *)

Module PewsClientFacts.
Import Telemetry PewsClient.

Lemma startsWith_iff (needle hay : list byte) :
  startsWith needle hay = true <-> exists post, hay = (needle ++ post)%list.
Proof.
  revert hay. induction needle as [|n needle IH]; intros hay; cbn [startsWith app].
  - split; [intros _; exists hay; reflexivity|reflexivity].
  - destruct hay as [|h hay].
    + split; [discriminate|intros [post H]; discriminate].
    + rewrite andb_true_iff, IH. split.
      * intros [Hn [post ->]]. apply byte_dec_bl in Hn. subst.
        exists post. reflexivity.
      * intros [post H]. inversion H; subst.
        split; [apply byte_dec_lb; reflexivity|exists post; reflexivity].
Qed.

Lemma includesBytes_iff (needle hay : list byte) :
  includesBytes needle hay = true <->
  exists pre post, hay = (pre ++ needle ++ post)%list.
Proof.
  induction hay as [|h hay IH]; cbn [includesBytes].
  - rewrite orb_false_r, startsWith_iff. split.
    + intros [post H]. exists [], post. exact H.
    + intros [pre [post H]]. destruct pre; [exists post; exact H|discriminate].
  - rewrite orb_true_iff, startsWith_iff, IH. split.
    + intros [[post H]|[pre [post H]]].
      * exists [], post. exact H.
      * exists (h :: pre), post. rewrite H. reflexivity.
    + intros [pre [post H]]. destruct pre as [|p pre].
      * left. exists post. exact H.
      * right. inversion H; subst. exists pre, post. reflexivity.
Qed.

(** The answer of the proxy is taken for a block page exactly when one of
    the two markers, in exactly this spelling, occurs within its first 100
    bytes; the bytes after these play no part. *)
Theorem isBinaryData_markers (data : Buffer) :
  (isBinaryData data = false <->
   exists marker pre post,
     (marker = bytesOfString "<html" \/ marker = bytesOfString "<!DOCTYPE") /\
     firstn 100 data = (pre ++ marker ++ post)%list) /\
  isBinaryData data = isBinaryData (firstn 100 data).
Proof.
  split.
  - unfold isBinaryData. cbv zeta.
    rewrite andb_false_iff, !negb_false_iff, !includesBytes_iff. split.
    + intros [[pre [post H]]|[pre [post H]]].
      * exists (bytesOfString "<html"), pre, post. split; [left; reflexivity|exact H].
      * exists (bytesOfString "<!DOCTYPE"), pre, post.
        split; [right; reflexivity|exact H].
    + intros (marker & pre & post & [->| ->] & H).
      * left. exists pre, post. exact H.
      * right. exists pre, post. exact H.
  - unfold isBinaryData. cbv zeta. rewrite firstn_firstn, Nat.min_id. reflexivity.
Qed.

End PewsClientFacts.

